(** * go-fastdfs: the client of [client.go]

    A shallow embedding of the dispatch client and of the storage-pool
    registry of package [fastdfs], and the properties of its
    specification.

    The file [client.go] holds
    - the package variables [storagePoolChan], [storagePoolMap],
      [fetchStoragePoolChan] and [quit];
    - the goroutine started by [init], which owns [storagePoolMap];
    - [New], [Close], the nine public operations and [getStoragePool].

    The rest of the package (connection pools, tracker and storage
    clients, file helpers) is not part of [client.go]; it is the
    interface [Package] below. *)

From stdpp Require Import gmap strings list.
From Stdlib Require Import ZArith Ascii.
From Stdlib.Strings Require Import Byte.

Open Scope Z_scope.
Open Scope string_scope.

(** ** Data of [client.go] *)

(** A Go [error] is observed through its message, [err.Error()]. *)
Definition error := string.

(** [type storagePool struct { addr string; minConns int; maxConns int }] *)
Record storagePool := mkStoragePool {
  addr : string;
  minConns : Z;
  maxConns : Z
}.

(** [type Config struct { Endpoints []string }] *)
Record Config := mkConfig { Endpoints : list string }.

(** The clients of the rest of the package are built positionally from a
    pool pointer: [&TrackerClient{this.pool}], [&StorageClient{storagePool}].
    A [*ConnectionPool] may be [nil]: it is an [option]. *)
Record TrackerClient (P : Type) := mkTrackerClient { tc_pool : option P }.
Record StorageClient (P : Type) := mkStorageClient { sc_pool : option P }.
Arguments mkTrackerClient {P} _.
Arguments tc_pool {P} _.
Arguments mkStorageClient {P} _.
Arguments sc_pool {P} _.

(** [type FastDFSClient struct { pool *ConnectionPool; timeout int }] *)
Record FastDFSClient (P : Type) := mkFastDFSClient {
  pool : option P;
  timeout : Z
}.
Arguments mkFastDFSClient {P} _ _.
Arguments pool {P} _.
Arguments timeout {P} _.

(** A value of type [interface{}] travelling on [fetchStoragePoolChan],
    as the type switch of [getStoragePool] sees it. *)
Inductive iface (P : Type) :=
| IError (err : error)
| IPool (sp : P)
| IOther.
Arguments IError {P} _.
Arguments IPool {P} _.
Arguments IOther {P}.

(** ** The rest of the package

    Everything [client.go] calls but does not define.  [World] is the
    state outside the process (file system, network, servers); a call
    reads it and may change it.  A function returning [(T, error)] whose
    result the client tests with [err != nil] before using the value is a
    sum; the storage executors, whose pair is handed back untouched, keep
    the Go pair. *)
Class Package := {
  World : Type;
  ConnectionPool : Type;
  StorageServer : Type;
  UploadFileResponse : Type;
  DownloadFileResponse : Type;
  (** the field [storeServ.ipAddr] *)
  ipAddr : StorageServer → string;
  (** the message of the error [splitRemoteFileId] returns *)
  errRemoteFileId : error;
  fdfsCheckFile : string → World → option error;
  NewConnectionPool :
    list string → Z → Z → World → (ConnectionPool + error) * World;
  trackerQueryStorageStorWithoutGroup :
    TrackerClient ConnectionPool → World → (StorageServer + error) * World;
  trackerQueryStorageStorWithGroup :
    TrackerClient ConnectionPool → string → World →
    (StorageServer + error) * World;
  trackerQueryStorageUpdate :
    TrackerClient ConnectionPool → string → string → World →
    (StorageServer + error) * World;
  trackerQueryStorageFetch :
    TrackerClient ConnectionPool → string → string → World →
    (StorageServer + error) * World;
  storageUploadByFilename :
    StorageClient ConnectionPool → TrackerClient ConnectionPool →
    StorageServer → string → World →
    (option UploadFileResponse * option error) * World;
  storageUploadByBuffer :
    StorageClient ConnectionPool → TrackerClient ConnectionPool →
    StorageServer → list byte → string → World →
    (option UploadFileResponse * option error) * World;
  storageUploadSlaveByFilename :
    StorageClient ConnectionPool → TrackerClient ConnectionPool →
    StorageServer → string → string → string → World →
    (option UploadFileResponse * option error) * World;
  storageUploadSlaveByBuffer :
    StorageClient ConnectionPool → TrackerClient ConnectionPool →
    StorageServer → list byte → string → string → World →
    (option UploadFileResponse * option error) * World;
  storageUploadAppenderByFilename :
    StorageClient ConnectionPool → TrackerClient ConnectionPool →
    StorageServer → string → World →
    (option UploadFileResponse * option error) * World;
  storageUploadAppenderByBuffer :
    StorageClient ConnectionPool → TrackerClient ConnectionPool →
    StorageServer → list byte → string → World →
    (option UploadFileResponse * option error) * World;
  storageDeleteFile :
    StorageClient ConnectionPool → TrackerClient ConnectionPool →
    StorageServer → string → World → option error * World;
  storageDownloadToFile :
    StorageClient ConnectionPool → TrackerClient ConnectionPool →
    StorageServer → string → Z → Z → string → World →
    (option DownloadFileResponse * option error) * World;
  storageDownloadToBuffer :
    StorageClient ConnectionPool → TrackerClient ConnectionPool →
    StorageServer → list byte → Z → Z → string → World →
    (option DownloadFileResponse * option error) * World
}.

(** ** Remote file identifiers *)

(** [break_at c s] cuts [s] at the first occurrence of [c]. *)
Fixpoint break_at (c : ascii) (s : string) : option (string * string) :=
  match s with
  | EmptyString => None
  | String a rest =>
      if Ascii.eqb a c then Some (EmptyString, rest)
      else match break_at c rest with
           | Some (g, f) => Some (String a g, f)
           | None => None
           end
  end.

Definition slash : ascii := "/"%char.

(** An identifier that splits into exactly two non-empty components: a
    non-empty group free of the separator, the separator, a non-empty
    remote file name. *)
Definition well_formed_id (s : string) : Prop :=
  ∃ g f, s = g ++ String slash f ∧ g ≠ "" ∧ f ≠ "" ∧ break_at slash g = None.

(** ** Channels

    The channels of [client.go] are buffered ([make(chan T, 1)]) or [nil]
    ([quit], declared and never made).  A channel value is [None] for
    [nil], otherwise its capacity and the queue of buffered values. *)
Record chan (A : Type) := mkChan { cap : nat; buf : list A }.
Arguments mkChan {A} _ _.
Arguments cap {A} _.
Arguments buf {A} _.

(** [make(chan A, n)] *)
Definition make {A} (n : nat) : option (chan A) := Some (mkChan n []).

(** [c <- a]: [None] when the send cannot proceed.  A send into a
    buffered channel proceeds while the buffer has room; a send on a
    [nil] channel never proceeds. *)
Definition chan_send {A} (c : option (chan A)) (a : A)
  : option (option (chan A)) :=
  match c with
  | None => None
  | Some ch =>
      if decide (length (buf ch) < cap ch)%nat
      then Some (Some (mkChan (cap ch) (buf ch ++ [a])%list))
      else None
  end.

(** [<-c]: [None] when the receive cannot proceed (empty buffer, or a
    [nil] channel). *)
Definition chan_recv {A} (c : option (chan A))
  : option (A * option (chan A)) :=
  match c with
  | Some (mkChan n (a :: rest)) => Some (a, Some (mkChan n rest))
  | _ => None
  end.

Section Client.
Context `{Pkg : Package}.

(** Modelled from the spec: [splitRemoteFileId] is called by [client.go]
    and defined elsewhere in the package.  The identifier has the form
    [group/remoteFilename] and is split on the first separator into
    exactly two parts; it must split into exactly two non-empty
    components, otherwise it is malformed and the result is an error. *)
Definition splitRemoteFileId (remoteFileId : string)
  : list string * option error :=
  match break_at slash remoteFileId with
  | Some (g, f) =>
      if bool_decide (g = "") || bool_decide (f = "")
      then ([], Some errRemoteFileId)
      else ([g; f], None)
  | None => ([], Some errRemoteFileId)
  end.

(** ** What an execution does outside [client.go]

    Every call that leaves [client.go] is recorded, in order. *)
Inductive TrackerQuery :=
| QStorWithoutGroup
| QStorWithGroup (groupName : string)
| QUpdate (groupName remoteFilename : string)
| QFetch (groupName remoteFilename : string).

Inductive StorageCall :=
| SUploadByFilename (filename : string)
| SUploadByBuffer (filebuffer : list byte) (fileExtName : string)
| SUploadSlaveByFilename (filename prefixName remoteFilename : string)
| SUploadSlaveByBuffer (filebuffer : list byte)
    (remoteFilename fileExtName : string)
| SUploadAppenderByFilename (filename : string)
| SUploadAppenderByBuffer (filebuffer : list byte) (fileExtName : string)
| SDeleteFile (remoteFilename : string)
| SDownloadToFile (localFilename : string) (offset downloadSize : Z)
    (remoteFilename : string)
| SDownloadToBuffer (fileBuffer : list byte) (offset downloadSize : Z)
    (remoteFilename : string).

Inductive Event :=
| EvCheckFile (filename : string)
| EvTracker (tc : TrackerClient ConnectionPool) (q : TrackerQuery)
| EvPoolRequest (spd : storagePool)
| EvNewConnectionPool (addrs : list string) (minC maxC : Z)
| EvStorage (store : StorageClient ConnectionPool)
    (storeServ : StorageServer) (c : StorageCall).

(** The state an execution threads: the outside world and the package
    variable [storagePoolMap]. *)
Record State := mkState {
  world : World;
  storagePoolMap : gmap string ConnectionPool
}.

(** A computation returns a value, the new state and the calls it made. *)
Definition M (A : Type) : Type := State → A * State * list Event.

Definition ret {A} (a : A) : M A := fun s => (a, s, []).
Definition bind {A B} (m : M A) (k : A → M B) : M B :=
  fun s =>
    let '(a, s1, t1) := m s in
    let '(b, s2, t2) := k a s1 in
    (b, s2, (t1 ++ t2)%list).

Definition result {A} (m : M A) (s : State) : A := (m s).1.1.
Definition final {A} (m : M A) (s : State) : State := (m s).1.2.
Definition events {A} (m : M A) (s : State) : list Event := (m s).2.

(** [call ev f]: the outside call [f], recorded as [ev]. *)
Definition call {A} (ev : Event) (f : World → A * World) : M A :=
  fun s =>
    let (a, w) := f (world s) in
    (a, mkState w (storagePoolMap s), [ev]).

Definition observe {A} (ev : Event) (f : World → A) : M A :=
  call ev (fun w => (f w, w)).

Notation "x <~ m ;; k" := (bind m (fun x => k))
  (at level 20, m at level 99, k at level 200, only parsing).
Notation "'exec' m ;; k" := (bind m (fun _ => k))
  (at level 20, m at level 99, k at level 200, only parsing).

(** ** The registry: the goroutine of [init] *)

Definition lookupPool (a : string) : M (option ConnectionPool) :=
  fun s => (storagePoolMap s !! a, s, []).

(** [storagePoolMap[a] = sp] *)
Definition storePool (a : string) (sp : ConnectionPool) : M unit :=
  fun s => (tt, mkState (world s) (<[a := sp]> (storagePoolMap s)), []).

(** The body of [case spd := <-storagePoolChan], up to the value it sends
    on [fetchStoragePoolChan]. *)
Definition registry_serve (spd : storagePool) : M (iface ConnectionPool) :=
  let a := addr spd in
  o <~ lookupPool a ;;
  match o with
  | Some sp => ret (IPool sp)
  | None =>
      r <~ call (EvNewConnectionPool [a] (minConns spd) (maxConns spd))
             (NewConnectionPool [a] (minConns spd) (maxConns spd)) ;;
      match r with
      | inr err => ret (IError err)
      | inl sp => exec storePool a sp ;; ret (IPool sp)
      end
  end.

(** ** [New] *)

Definition New (cfg : Config)
  : M (option (FastDFSClient ConnectionPool) * option error) :=
  r <~ call (EvNewConnectionPool (Endpoints cfg) 10 150)
         (NewConnectionPool (Endpoints cfg) 10 150) ;;
  match r with
  | inr err => ret (None, Some err)
  | inl p => ret (Some (mkFastDFSClient (Some p) 0), None)
  end.

(** ** [getStoragePool], one caller at a time *)

(** The request [getStoragePool] builds for an address. *)
Definition request_for (ip : string) : storagePool := mkStoragePool ip 10 150.

(** The type switch on the value received from [fetchStoragePoolChan]. *)
Definition type_switch (result : iface ConnectionPool)
  : option ConnectionPool * option error :=
  match result with
  | IError err => (None, Some err)
  | IPool sp => (Some sp, None)
  | IOther => (None, Some "none")
  end.

(** [storagePoolChan <- spd] *)
Definition send_request (spd : storagePool) : M unit :=
  fun s => (tt, s, [EvPoolRequest spd]).

(** With no other caller in flight the goroutine of [init] serves the
    request between the send and the receive ([getStoragePool_on_machine]
    below relates this to the channels). *)
Definition getStoragePool (this : FastDFSClient ConnectionPool) (ip : string)
  : M (option ConnectionPool * option error) :=
  let spd := request_for ip in
  exec send_request spd ;;
  result <~ registry_serve spd ;;
  ret (type_switch result).

(** ** The public operations *)

Definition uploading (err : error) : error := err ++ "(uploading)".

Definition UploadByFilename (this : FastDFSClient ConnectionPool)
    (filename : string) : M (option UploadFileResponse * option error) :=
  chk <~ observe (EvCheckFile filename) (fdfsCheckFile filename) ;;
  match chk with
  | Some err => ret (None, Some (uploading err))
  | None =>
      let tc := mkTrackerClient (pool this) in
      r <~ call (EvTracker tc QStorWithoutGroup)
             (trackerQueryStorageStorWithoutGroup tc) ;;
      match r with
      | inr err => ret (None, Some err)
      | inl storeServ =>
          p <~ getStoragePool this (ipAddr storeServ) ;;
          let store := mkStorageClient (fst p) in
          call (EvStorage store storeServ (SUploadByFilename filename))
            (storageUploadByFilename store tc storeServ filename)
      end
  end.

Definition UploadByBuffer (this : FastDFSClient ConnectionPool)
    (filebuffer : list byte) (fileExtName : string)
  : M (option UploadFileResponse * option error) :=
  let tc := mkTrackerClient (pool this) in
  r <~ call (EvTracker tc QStorWithoutGroup)
         (trackerQueryStorageStorWithoutGroup tc) ;;
  match r with
  | inr err => ret (None, Some err)
  | inl storeServ =>
      p <~ getStoragePool this (ipAddr storeServ) ;;
      let store := mkStorageClient (fst p) in
      call (EvStorage store storeServ (SUploadByBuffer filebuffer fileExtName))
        (storageUploadByBuffer store tc storeServ filebuffer fileExtName)
  end.

Definition UploadSlaveByFilename (this : FastDFSClient ConnectionPool)
    (filename remoteFileId prefixName : string)
  : M (option UploadFileResponse * option error) :=
  chk <~ observe (EvCheckFile filename) (fdfsCheckFile filename) ;;
  match chk with
  | Some err => ret (None, Some (uploading err))
  | None =>
      match splitRemoteFileId remoteFileId with
      | ([groupName; remoteFilename], None) =>
          let tc := mkTrackerClient (pool this) in
          r <~ call (EvTracker tc (QStorWithGroup groupName))
                 (trackerQueryStorageStorWithGroup tc groupName) ;;
          match r with
          | inr err => ret (None, Some err)
          | inl storeServ =>
              p <~ getStoragePool this (ipAddr storeServ) ;;
              let store := mkStorageClient (fst p) in
              call (EvStorage store storeServ
                      (SUploadSlaveByFilename filename prefixName
                         remoteFilename))
                (storageUploadSlaveByFilename store tc storeServ filename
                   prefixName remoteFilename)
          end
      | (_, err) => ret (None, err)
      end
  end.

Definition UploadSlaveByBuffer (this : FastDFSClient ConnectionPool)
    (filebuffer : list byte) (remoteFileId fileExtName : string)
  : M (option UploadFileResponse * option error) :=
  match splitRemoteFileId remoteFileId with
  | ([groupName; remoteFilename], None) =>
      let tc := mkTrackerClient (pool this) in
      r <~ call (EvTracker tc (QStorWithGroup groupName))
             (trackerQueryStorageStorWithGroup tc groupName) ;;
      match r with
      | inr err => ret (None, Some err)
      | inl storeServ =>
          p <~ getStoragePool this (ipAddr storeServ) ;;
          let store := mkStorageClient (fst p) in
          call (EvStorage store storeServ
                  (SUploadSlaveByBuffer filebuffer remoteFilename fileExtName))
            (storageUploadSlaveByBuffer store tc storeServ filebuffer
               remoteFilename fileExtName)
      end
  | (_, err) => ret (None, err)
  end.

Definition UploadAppenderByFilename (this : FastDFSClient ConnectionPool)
    (filename : string) : M (option UploadFileResponse * option error) :=
  chk <~ observe (EvCheckFile filename) (fdfsCheckFile filename) ;;
  match chk with
  | Some err => ret (None, Some (uploading err))
  | None =>
      let tc := mkTrackerClient (pool this) in
      r <~ call (EvTracker tc QStorWithoutGroup)
             (trackerQueryStorageStorWithoutGroup tc) ;;
      match r with
      | inr err => ret (None, Some err)
      | inl storeServ =>
          p <~ getStoragePool this (ipAddr storeServ) ;;
          let store := mkStorageClient (fst p) in
          call (EvStorage store storeServ (SUploadAppenderByFilename filename))
            (storageUploadAppenderByFilename store tc storeServ filename)
      end
  end.

Definition UploadAppenderByBuffer (this : FastDFSClient ConnectionPool)
    (filebuffer : list byte) (fileExtName : string)
  : M (option UploadFileResponse * option error) :=
  let tc := mkTrackerClient (pool this) in
  r <~ call (EvTracker tc QStorWithoutGroup)
         (trackerQueryStorageStorWithoutGroup tc) ;;
  match r with
  | inr err => ret (None, Some err)
  | inl storeServ =>
      p <~ getStoragePool this (ipAddr storeServ) ;;
      let store := mkStorageClient (fst p) in
      call (EvStorage store storeServ
              (SUploadAppenderByBuffer filebuffer fileExtName))
        (storageUploadAppenderByBuffer store tc storeServ filebuffer
           fileExtName)
  end.

Definition DeleteFile (this : FastDFSClient ConnectionPool)
    (remoteFileId : string) : M (option error) :=
  match splitRemoteFileId remoteFileId with
  | ([groupName; remoteFilename], None) =>
      let tc := mkTrackerClient (pool this) in
      r <~ call (EvTracker tc (QUpdate groupName remoteFilename))
             (trackerQueryStorageUpdate tc groupName remoteFilename) ;;
      match r with
      | inr err => ret (Some err)
      | inl storeServ =>
          p <~ getStoragePool this (ipAddr storeServ) ;;
          let store := mkStorageClient (fst p) in
          call (EvStorage store storeServ (SDeleteFile remoteFilename))
            (storageDeleteFile store tc storeServ remoteFilename)
      end
  | (_, err) => ret err
  end.

Definition DownloadToFile (this : FastDFSClient ConnectionPool)
    (localFilename remoteFileId : string) (offset downloadSize : Z)
  : M (option DownloadFileResponse * option error) :=
  match splitRemoteFileId remoteFileId with
  | ([groupName; remoteFilename], None) =>
      let tc := mkTrackerClient (pool this) in
      r <~ call (EvTracker tc (QFetch groupName remoteFilename))
             (trackerQueryStorageFetch tc groupName remoteFilename) ;;
      match r with
      | inr err => ret (None, Some err)
      | inl storeServ =>
          p <~ getStoragePool this (ipAddr storeServ) ;;
          let store := mkStorageClient (fst p) in
          call (EvStorage store storeServ
                  (SDownloadToFile localFilename offset downloadSize
                     remoteFilename))
            (storageDownloadToFile store tc storeServ localFilename offset
               downloadSize remoteFilename)
      end
  | (_, err) => ret (None, err)
  end.

Definition DownloadToBuffer (this : FastDFSClient ConnectionPool)
    (remoteFileId : string) (offset downloadSize : Z)
  : M (option DownloadFileResponse * option error) :=
  match splitRemoteFileId remoteFileId with
  | ([groupName; remoteFilename], None) =>
      let tc := mkTrackerClient (pool this) in
      r <~ call (EvTracker tc (QFetch groupName remoteFilename))
             (trackerQueryStorageFetch tc groupName remoteFilename) ;;
      match r with
      | inr err => ret (None, Some err)
      | inl storeServ =>
          p <~ getStoragePool this (ipAddr storeServ) ;;
          let store := mkStorageClient (fst p) in
          let fileBuffer : list byte := [] in
          call (EvStorage store storeServ
                  (SDownloadToBuffer fileBuffer offset downloadSize
                     remoteFilename))
            (storageDownloadToBuffer store tc storeServ fileBuffer offset
               downloadSize remoteFilename)
      end
  | (_, err) => ret (None, err)
  end.

(** *** The operations as one family

    To speak of every operation at once: a [Call] names an operation
    with its arguments and [perform] runs it. *)
Inductive Call :=
| CUploadByFilename (filename : string)
| CUploadByBuffer (filebuffer : list byte) (fileExtName : string)
| CUploadSlaveByFilename (filename remoteFileId prefixName : string)
| CUploadSlaveByBuffer (filebuffer : list byte)
    (remoteFileId fileExtName : string)
| CUploadAppenderByFilename (filename : string)
| CUploadAppenderByBuffer (filebuffer : list byte) (fileExtName : string)
| CDeleteFile (remoteFileId : string)
| CDownloadToFile (localFilename remoteFileId : string)
    (offset downloadSize : Z)
| CDownloadToBuffer (remoteFileId : string) (offset downloadSize : Z).

Inductive Answer :=
| AUpload (r : option UploadFileResponse * option error)
| ADownload (r : option DownloadFileResponse * option error)
| ADelete (err : option error).

Definition lift {A B} (f : A → B) (m : M A) : M B :=
  fun s => let '(a, s', t) := m s in (f a, s', t).

Definition perform (this : FastDFSClient ConnectionPool) (c : Call)
  : M Answer :=
  match c with
  | CUploadByFilename filename =>
      lift AUpload (UploadByFilename this filename)
  | CUploadByBuffer filebuffer fileExtName =>
      lift AUpload (UploadByBuffer this filebuffer fileExtName)
  | CUploadSlaveByFilename filename remoteFileId prefixName =>
      lift AUpload (UploadSlaveByFilename this filename remoteFileId prefixName)
  | CUploadSlaveByBuffer filebuffer remoteFileId fileExtName =>
      lift AUpload (UploadSlaveByBuffer this filebuffer remoteFileId fileExtName)
  | CUploadAppenderByFilename filename =>
      lift AUpload (UploadAppenderByFilename this filename)
  | CUploadAppenderByBuffer filebuffer fileExtName =>
      lift AUpload (UploadAppenderByBuffer this filebuffer fileExtName)
  | CDeleteFile remoteFileId =>
      lift ADelete (DeleteFile this remoteFileId)
  | CDownloadToFile localFilename remoteFileId offset downloadSize =>
      lift ADownload
        (DownloadToFile this localFilename remoteFileId offset downloadSize)
  | CDownloadToBuffer remoteFileId offset downloadSize =>
      lift ADownload (DownloadToBuffer this remoteFileId offset downloadSize)
  end.

(** [return nil, err] (for [DeleteFile]: [return err]) in the result type
    of the operation. *)
Definition failed (c : Call) (err : option error) : Answer :=
  match c with
  | CDeleteFile _ => ADelete err
  | CDownloadToFile _ _ _ _ | CDownloadToBuffer _ _ _ => ADownload (None, err)
  | _ => AUpload (None, err)
  end.

Definition answer_error (a : Answer) : option error :=
  match a with
  | AUpload r => r.2
  | ADownload r => r.2
  | ADelete err => err
  end.

(** The local file a filename-based upload checks first. *)
Definition local_file (c : Call) : option string :=
  match c with
  | CUploadByFilename filename
  | CUploadSlaveByFilename filename _ _
  | CUploadAppenderByFilename filename => Some filename
  | _ => None
  end.

(** The outcome of that check in a state; [None] also when the operation
    checks no file. *)
Definition local_check (c : Call) (s : State) : option error :=
  match local_file c with
  | Some filename => fdfsCheckFile filename (world s)
  | None => None
  end.

(** The remote file identifier an operation takes. *)
Definition identifier (c : Call) : option string :=
  match c with
  | CUploadSlaveByFilename _ remoteFileId _
  | CUploadSlaveByBuffer _ remoteFileId _
  | CDeleteFile remoteFileId
  | CDownloadToFile _ remoteFileId _ _
  | CDownloadToBuffer remoteFileId _ _ => Some remoteFileId
  | _ => None
  end.

(** The tracker query that matches the kind of an operation, for the
    components [groupName] and [remoteFilename] of its identifier: fresh
    uploads ask for a store server without naming a group, slave uploads
    for a store server of the group, [DeleteFile] for a server to update
    the file on, downloads for a server to fetch it from. *)
Definition query_kind (c : Call) (groupName remoteFilename : string)
  : TrackerQuery :=
  match c with
  | CUploadByFilename _ | CUploadByBuffer _ _
  | CUploadAppenderByFilename _ | CUploadAppenderByBuffer _ _ =>
      QStorWithoutGroup
  | CUploadSlaveByFilename _ _ _ | CUploadSlaveByBuffer _ _ _ =>
      QStorWithGroup groupName
  | CDeleteFile _ => QUpdate groupName remoteFilename
  | CDownloadToFile _ _ _ _ | CDownloadToBuffer _ _ _ =>
      QFetch groupName remoteFilename
  end.

(** Tracker queries, pool requests, pool constructions and storage calls:
    every recorded call but the local file check. *)
Definition is_network (ev : Event) : bool :=
  match ev with
  | EvCheckFile _ => false
  | _ => true
  end.

Definition tracker_queries (t : list Event) : list TrackerQuery :=
  omap (λ ev, match ev with EvTracker _ q => Some q | _ => None end) t.

Definition storage_calls (t : list Event)
  : list (StorageClient ConnectionPool * StorageServer * StorageCall) :=
  omap (λ ev, match ev with
              | EvStorage store serv c => Some (store, serv, c)
              | _ => None
              end) t.

Definition pool_requests (t : list Event) : list storagePool :=
  omap (λ ev, match ev with EvPoolRequest spd => Some spd | _ => None end) t.

Definition pool_constructions (t : list Event)
  : list (list string * Z * Z) :=
  omap (λ ev, match ev with
              | EvNewConnectionPool addrs mn mx => Some (addrs, mn, mx)
              | _ => None
              end) t.

(** *** The two calls an operation ends with

    The tracker function behind a query, and the storage executor an
    operation calls with its arguments, the client [store] built from
    the pool, the tracker client, the server the tracker named and the
    second component of the identifier. *)
Definition ask_tracker (tc : TrackerClient ConnectionPool) (q : TrackerQuery)
  : World → (StorageServer + error) * World :=
  match q with
  | QStorWithoutGroup => trackerQueryStorageStorWithoutGroup tc
  | QStorWithGroup groupName => trackerQueryStorageStorWithGroup tc groupName
  | QUpdate groupName remoteFilename =>
      trackerQueryStorageUpdate tc groupName remoteFilename
  | QFetch groupName remoteFilename =>
      trackerQueryStorageFetch tc groupName remoteFilename
  end.

Definition storage_call_of (c : Call) (remoteFilename : string)
  : StorageCall :=
  match c with
  | CUploadByFilename filename => SUploadByFilename filename
  | CUploadByBuffer filebuffer fileExtName =>
      SUploadByBuffer filebuffer fileExtName
  | CUploadSlaveByFilename filename _ prefixName =>
      SUploadSlaveByFilename filename prefixName remoteFilename
  | CUploadSlaveByBuffer filebuffer _ fileExtName =>
      SUploadSlaveByBuffer filebuffer remoteFilename fileExtName
  | CUploadAppenderByFilename filename => SUploadAppenderByFilename filename
  | CUploadAppenderByBuffer filebuffer fileExtName =>
      SUploadAppenderByBuffer filebuffer fileExtName
  | CDeleteFile _ => SDeleteFile remoteFilename
  | CDownloadToFile localFilename _ offset downloadSize =>
      SDownloadToFile localFilename offset downloadSize remoteFilename
  | CDownloadToBuffer _ offset downloadSize =>
      SDownloadToBuffer [] offset downloadSize remoteFilename
  end.

Definition tag {A B} (f : A → B) (x : A * World) : B * World := (f x.1, x.2).

Definition execute (c : Call) (store : StorageClient ConnectionPool)
    (tc : TrackerClient ConnectionPool) (serv : StorageServer)
    (remoteFilename : string) (w : World) : Answer * World :=
  match c with
  | CUploadByFilename filename =>
      tag AUpload (storageUploadByFilename store tc serv filename w)
  | CUploadByBuffer filebuffer fileExtName =>
      tag AUpload (storageUploadByBuffer store tc serv filebuffer fileExtName w)
  | CUploadSlaveByFilename filename _ prefixName =>
      tag AUpload
        (storageUploadSlaveByFilename store tc serv filename prefixName
           remoteFilename w)
  | CUploadSlaveByBuffer filebuffer _ fileExtName =>
      tag AUpload
        (storageUploadSlaveByBuffer store tc serv filebuffer remoteFilename
           fileExtName w)
  | CUploadAppenderByFilename filename =>
      tag AUpload (storageUploadAppenderByFilename store tc serv filename w)
  | CUploadAppenderByBuffer filebuffer fileExtName =>
      tag AUpload
        (storageUploadAppenderByBuffer store tc serv filebuffer fileExtName w)
  | CDeleteFile _ =>
      tag ADelete (storageDeleteFile store tc serv remoteFilename w)
  | CDownloadToFile localFilename _ offset downloadSize =>
      tag ADownload
        (storageDownloadToFile store tc serv localFilename offset downloadSize
           remoteFilename w)
  | CDownloadToBuffer _ offset downloadSize =>
      tag ADownload
        (storageDownloadToBuffer store tc serv [] offset downloadSize
           remoteFilename w)
  end.

(** The record of the local file check of an operation that has one. *)
Definition pre_events (c : Call) : list Event :=
  match local_file c with
  | Some filename => [EvCheckFile filename]
  | None => []
  end.

(** ** The goroutines

    The goroutine of [init] and any number of callers, each inside
    [getStoragePool] or inside [Close], interleaved by a scheduler. *)

(** Where the goroutine of [init] stands: at its [select], or at the
    send [fetchStoragePoolChan <- v] that ends a request. *)
Inductive Registry :=
| AtSelect
| AtReply (v : iface ConnectionPool).

(** Where a caller stands:
    - [AtRequest ip]: in [getStoragePool(ip)], at [storagePoolChan <- spd];
    - [AtResult ip]: at [case result = <-fetchStoragePoolChan];
    - [Returned ip r]: [getStoragePool(ip)] has returned [r];
    - [AtQuit]: in [Close], at [quit <- true];
    - [CloseReturned]: [Close] has returned. *)
Inductive Caller :=
| AtRequest (ip : string)
| AtResult (ip : string)
| Returned (ip : string) (r : option ConnectionPool * option error)
| AtQuit
| CloseReturned.

Record Machine := mkMachine {
  shared : State;
  storagePoolChan : option (chan storagePool);
  fetchStoragePoolChan : option (chan (iface ConnectionPool));
  quit : option (chan bool);
  registry : Registry;
  callers : list Caller;
  history : list Event
}.

(** The package variables as the [var] block initialises them, the
    goroutine of [init] started, and the given callers about to run. *)
Definition boot (w : World) (cs : list Caller) : Machine :=
  mkMachine (mkState w ∅) (make 1) (make 1) None AtSelect cs [].

(** What the scheduler can pick: one of the two cases of the [select] of
    the goroutine, its pending send, or the next statement of a caller. *)
Inductive Action :=
| RegistryTakesRequest
| RegistryTakesQuit
| RegistryReplies
| CallerMoves (i : nat).

Definition caller_step (i : nat) (c : Caller) (m : Machine)
  : option Machine :=
  match c with
  | AtRequest ip =>
      let spd := request_for ip in
      ch ← chan_send (storagePoolChan m) spd;
      Some (mkMachine (shared m) ch (fetchStoragePoolChan m) (quit m)
              (registry m) (<[i := AtResult ip]> (callers m))
              (history m ++ [EvPoolRequest spd])%list)
  | AtResult ip =>
      '(v, ch) ← chan_recv (fetchStoragePoolChan m);
      Some (mkMachine (shared m) (storagePoolChan m) ch (quit m)
              (registry m) (<[i := Returned ip (type_switch v)]> (callers m))
              (history m))
  | AtQuit =>
      ch ← chan_send (quit m) true;
      Some (mkMachine (shared m) (storagePoolChan m) (fetchStoragePoolChan m)
              ch (registry m) (<[i := CloseReturned]> (callers m))
              (history m))
  | Returned _ _ | CloseReturned => None
  end.

(** One move; [None] when the chosen goroutine cannot move.  [break]
    inside [case <-quit] leaves the [select] only: the [for] goes on. *)
Definition step (a : Action) (m : Machine) : option Machine :=
  match a, registry m with
  | RegistryTakesRequest, AtSelect =>
      '(spd, ch) ← chan_recv (storagePoolChan m);
      let '(v, s', t) := registry_serve spd (shared m) in
      Some (mkMachine s' ch (fetchStoragePoolChan m) (quit m) (AtReply v)
              (callers m) (history m ++ t)%list)
  | RegistryTakesQuit, AtSelect =>
      '(_, ch) ← chan_recv (quit m);
      Some (mkMachine (shared m) (storagePoolChan m) (fetchStoragePoolChan m)
              ch AtSelect (callers m) (history m))
  | RegistryReplies, AtReply v =>
      ch ← chan_send (fetchStoragePoolChan m) v;
      Some (mkMachine (shared m) (storagePoolChan m) ch (quit m) AtSelect
              (callers m) (history m))
  | CallerMoves i, _ =>
      c ← callers m !! i;
      caller_step i c m
  | _, _ => None
  end.

(** The values waiting in a channel. *)
Definition queued {A} (c : option (chan A)) : list A :=
  match c with
  | Some ch => buf ch
  | None => []
  end.

(** The address a caller of [getStoragePool] asks for. *)
Definition asks_for (c : Caller) : option string :=
  match c with
  | AtRequest ip | AtResult ip | Returned ip _ => Some ip
  | AtQuit | CloseReturned => None
  end.

(** Every request, made or about to be made, is for [ip]. *)
Definition only_for (ip : string) (m : Machine) : Prop :=
  Forall (λ spd, addr spd = ip) (queued (storagePoolChan m)) ∧
  Forall (λ c, ∀ a, asks_for c = Some a → a = ip) (callers m).

(** Every pool on its way to a caller, or returned to one, is the pool
    the map holds for [ip]. *)
Definition pools_agree (ip : string) (m : Machine) : Prop :=
  (∀ q, registry m = AtReply (IPool q) →
        storagePoolMap (shared m) !! ip = Some q) ∧
  Forall (λ v, ∀ q, v = IPool q → storagePoolMap (shared m) !! ip = Some q)
    (queued (fetchStoragePoolChan m)) ∧
  Forall (λ c, ∀ a q e, c = Returned a (Some q, e) →
                        storagePoolMap (shared m) !! ip = Some q)
    (callers m).

(** The channels are as the [var] block leaves them: the two made with
    capacity 1, holding at most one value, and [quit] not made. *)
Definition channels_made (m : Machine) : Prop :=
  (∃ q, storagePoolChan m = Some (mkChan 1 q) ∧ (length q ≤ 1)%nat) ∧
  (∃ q, fetchStoragePoolChan m = Some (mkChan 1 q) ∧ (length q ≤ 1)%nat) ∧
  quit m = None.

(** A caller that has sent its request and not yet received. *)
Definition is_waiting (c : Caller) : bool :=
  match c with
  | AtResult _ => true
  | _ => false
  end.

(** A caller still inside [getStoragePool]. *)
Definition is_pending (c : Caller) : bool :=
  match c with
  | AtRequest _ | AtResult _ => true
  | _ => false
  end.

(** A caller about to call [getStoragePool] or [Close]. *)
Definition is_fresh (c : Caller) : bool :=
  match c with
  | AtRequest _ | AtQuit => true
  | _ => false
  end.

Definition waiting (m : Machine) : nat :=
  length (filter (λ c, is_waiting c = true) (callers m)).

(** Requests queued, the request being served, replies queued. *)
Definition in_flight (m : Machine) : nat :=
  (length (queued (storagePoolChan m))
   + match registry m with AtReply _ => 1 | AtSelect => 0 end
   + length (queued (fetchStoragePoolChan m)))%nat.

(** A caller that has not sent its request yet. *)
Definition is_asking (c : Caller) : bool :=
  match c with
  | AtRequest _ => true
  | _ => false
  end.

(** The moves still to come: four for a request not yet sent (send,
    take, reply, receive), three for a queued request, two for the
    request being served, one for a queued reply. *)
Definition remaining (m : Machine) : nat :=
  (4 * length (filter (λ c, is_asking c = true) (callers m))
   + 3 * length (queued (storagePoolChan m))
   + 2 * match registry m with AtReply _ => 1 | AtSelect => 0 end
   + length (queued (fetchStoragePoolChan m)))%nat.

(** Some caller asks for the address. *)
Definition asked (m : Machine) (a : string) : Prop :=
  ∃ c, c ∈ callers m ∧ asks_for c = Some a.

(** The replies on their way to a caller. *)
Definition replies (m : Machine) : list (iface ConnectionPool) :=
  (match registry m with AtReply v => [v] | AtSelect => [] end
   ++ queued (fetchStoragePoolChan m))%list.

(** The pools of the map are pools of addresses some caller asked for;
    the requests queued are for such addresses; every pool on its way
    to a caller or returned to one is in the map. *)
Definition sound (m : Machine) : Prop :=
  (∀ a q, storagePoolMap (shared m) !! a = Some q → asked m a) ∧
  Forall (λ spd, asked m (addr spd)) (queued (storagePoolChan m)) ∧
  Forall (λ v, ∀ q, v = IPool q →
                    ∃ a, storagePoolMap (shared m) !! a = Some q)
    (replies m) ∧
  Forall (λ c, ∀ ip q e, c = Returned ip (Some q, e) →
                         ∃ a, storagePoolMap (shared m) !! a = Some q)
    (callers m).

(** The moves of [step], one rule per move. *)
Inductive Step : Action → Machine → Machine → Prop :=
| Step_request m spd ch :
    registry m = AtSelect →
    chan_recv (storagePoolChan m) = Some (spd, ch) →
    Step RegistryTakesRequest m
      (mkMachine (final (registry_serve spd) (shared m)) ch
         (fetchStoragePoolChan m) (quit m)
         (AtReply (result (registry_serve spd) (shared m))) (callers m)
         (history m ++ events (registry_serve spd) (shared m))%list)
| Step_quit m b ch :
    registry m = AtSelect →
    chan_recv (quit m) = Some (b, ch) →
    Step RegistryTakesQuit m
      (mkMachine (shared m) (storagePoolChan m) (fetchStoragePoolChan m) ch
         AtSelect (callers m) (history m))
| Step_reply m v ch :
    registry m = AtReply v →
    chan_send (fetchStoragePoolChan m) v = Some ch →
    Step RegistryReplies m
      (mkMachine (shared m) (storagePoolChan m) ch (quit m) AtSelect
         (callers m) (history m))
| Step_caller_request m i ip ch :
    callers m !! i = Some (AtRequest ip) →
    chan_send (storagePoolChan m) (request_for ip) = Some ch →
    Step (CallerMoves i) m
      (mkMachine (shared m) ch (fetchStoragePoolChan m) (quit m) (registry m)
         (<[i := AtResult ip]> (callers m))
         (history m ++ [EvPoolRequest (request_for ip)])%list)
| Step_caller_result m i ip v ch :
    callers m !! i = Some (AtResult ip) →
    chan_recv (fetchStoragePoolChan m) = Some (v, ch) →
    Step (CallerMoves i) m
      (mkMachine (shared m) (storagePoolChan m) ch (quit m) (registry m)
         (<[i := Returned ip (type_switch v)]> (callers m)) (history m))
| Step_caller_quit m i ch :
    callers m !! i = Some AtQuit →
    chan_send (quit m) true = Some ch →
    Step (CallerMoves i) m
      (mkMachine (shared m) (storagePoolChan m) (fetchStoragePoolChan m) ch
         (registry m) (<[i := CloseReturned]> (callers m)) (history m)).

Fixpoint run (sched : list Action) (m : Machine) : option Machine :=
  match sched with
  | [] => Some m
  | a :: rest =>
      match step a m with
      | Some m' => run rest m'
      | None => None
      end
  end.

End Client.

(** ** A concrete package

    One instance of the rest of the package, to run the client on: a
    world with a set of local files and a set of storage addresses that
    refuse connections, two groups with one storage server each, and
    executors that need a pool. *)
Module Demo.

Record DemoWorld := mkWorld {
  files : list string;
  down : list string;
  built : nat
}.

Record DemoPool := mkPool {
  pool_serial : nat;
  pool_addrs : list string;
  pool_min : Z;
  pool_max : Z
}.

Record DemoServer := mkServer { srv_ip : string; srv_group : string }.

Definition mem (x : string) (l : list string) : bool :=
  existsb (String.eqb x) l.

Definition demoCheckFile (filename : string) (w : DemoWorld) : option error :=
  if mem filename (files w) then None
  else Some ("stat " ++ filename ++ ": no such file or directory").

Definition demoNewConnectionPool (addrs : list string) (mn mx : Z)
    (w : DemoWorld) : (DemoPool + error) * DemoWorld :=
  if forallb (λ a, mem a (down w)) addrs
  then (inr "dial tcp: connection refused"%string, w)
  else (inl (mkPool (built w) addrs mn mx),
        mkWorld (files w) (down w) (S (built w))).

Definition server_of (groupName : string) : DemoServer + error :=
  if String.eqb groupName "group1" then inl (mkServer "10.0.1.80:23000" "group1")
  else if String.eqb groupName "group2"
       then inl (mkServer "10.0.1.81:23000" "group2")
       else inr "no storage server in group".

Definition with_pool {A} (store : StorageClient DemoPool) (ok : A)
    (w : DemoWorld) : (option A * option error) * DemoWorld :=
  match sc_pool store with
  | Some _ => ((Some ok, None), w)
  | None => ((None, Some "storage client has no pool"), w)
  end.

#[export] Instance pkg : Package := {|
  World := DemoWorld;
  ConnectionPool := DemoPool;
  StorageServer := DemoServer;
  UploadFileResponse := string;
  DownloadFileResponse := list byte;
  ipAddr := srv_ip;
  errRemoteFileId := "error remoteFileId";
  fdfsCheckFile := demoCheckFile;
  NewConnectionPool := demoNewConnectionPool;
  trackerQueryStorageStorWithoutGroup := λ _ w, (server_of "group1", w);
  trackerQueryStorageStorWithGroup := λ _ g w, (server_of g, w);
  trackerQueryStorageUpdate := λ _ g _ w, (server_of g, w);
  trackerQueryStorageFetch := λ _ g _ w, (server_of g, w);
  storageUploadByFilename := λ store _ serv _, with_pool store (srv_group serv);
  storageUploadByBuffer := λ store _ serv _ _, with_pool store (srv_group serv);
  storageUploadSlaveByFilename :=
    λ store _ serv _ _ _, with_pool store (srv_group serv);
  storageUploadSlaveByBuffer :=
    λ store _ serv _ _ _, with_pool store (srv_group serv);
  storageUploadAppenderByFilename :=
    λ store _ serv _, with_pool store (srv_group serv);
  storageUploadAppenderByBuffer :=
    λ store _ serv _ _, with_pool store (srv_group serv);
  storageDeleteFile := λ store _ _ _ w, ((with_pool store tt w).1.2, w);
  storageDownloadToFile := λ store _ _ _ _ _ _, with_pool store [];
  storageDownloadToBuffer := λ store _ _ _ _ _ _, with_pool store []
|}.

(** A world where [/tmp/thumb.jpg] exists and every server answers. *)
Definition w0 : DemoWorld := mkWorld ["/tmp/thumb.jpg"] [] 1.

(** The same with the storage server of [group1] refusing connections. *)
Definition w_down : DemoWorld :=
  mkWorld ["/tmp/thumb.jpg"] ["10.0.1.80:23000"] 1.

Definition refused : error := "dial tcp: connection refused".
Definition no_pool : error := "storage client has no pool".

Definition tracker_pool : DemoPool := mkPool 0 ["10.0.1.70:22122"] 10 150.
Definition client : FastDFSClient DemoPool := mkFastDFSClient (Some tracker_pool) 0.

Definition start (w : DemoWorld) : State := mkState w ∅.

Definition ip80 : string := "10.0.1.80:23000".
Definition ip81 : string := "10.0.1.81:23000".

(** The pools [demoNewConnectionPool] builds from [w0], in this order. *)
Definition pool80 : DemoPool := mkPool 1 [ip80] 10 150.
Definition pool81 : DemoPool := mkPool 2 [ip81] 10 150.

(** A state whose map already holds the pool of [ip80]. *)
Definition warm : State :=
  mkState (mkWorld ["/tmp/thumb.jpg"] [] 2) {[ ip80 := pool80 ]}.

(** Two callers of [getStoragePool], for two addresses, and a schedule:
    the first caller sends its request and is then kept waiting; the
    goroutine takes that request; the second caller sends its own; the
    goroutine replies to the first request; the second caller receives;
    the goroutine serves the second request; the first caller receives. *)
Definition two_callers : list Caller := [AtRequest ip80; AtRequest ip81].

Definition crossing : list Action :=
  [ CallerMoves 0; RegistryTakesRequest; CallerMoves 1; RegistryReplies;
    CallerMoves 1; RegistryTakesRequest; RegistryReplies; CallerMoves 0 ].

(** A caller of [Close] next to a caller of [getStoragePool], and a
    schedule that serves the latter. *)
Definition close_and_request : list Caller := [AtQuit; AtRequest ip80].

Definition serve_second : list Action :=
  [ CallerMoves 1; RegistryTakesRequest; RegistryReplies; CallerMoves 1 ].

Definition after_serve_second : Machine :=
  mkMachine (mkState (mkWorld ["/tmp/thumb.jpg"] [] 2) {[ ip80 := pool80 ]})
    (make 1) (make 1) None AtSelect
    [AtQuit; Returned ip80 (Some pool80, None)]
    [EvPoolRequest (request_for ip80); EvNewConnectionPool [ip80] 10 150].

(** The goroutines with the pool of [ip80] recorded and one caller asking
    for [ip81], before and after that caller is served. *)
Definition warm_machine : Machine :=
  mkMachine warm (make 1) (make 1) None AtSelect [AtRequest ip81] [].

Definition serve_first : list Action :=
  [ CallerMoves 0; RegistryTakesRequest; RegistryReplies; CallerMoves 0 ].

Definition after_serve_first : Machine :=
  mkMachine
    (mkState (mkWorld ["/tmp/thumb.jpg"] [] 3)
       (<[ ip81 := mkPool 2 [ip81] 10 150 ]> {[ ip80 := pool80 ]}))
    (make 1) (make 1) None AtSelect
    [Returned ip81 (Some (mkPool 2 [ip81] 10 150), None)]
    [EvPoolRequest (request_for ip81); EvNewConnectionPool [ip81] 10 150].

(** The two callers of [two_callers] after the schedule [crossing]. *)
Definition after_crossing : Machine :=
  mkMachine
    (mkState (mkWorld ["/tmp/thumb.jpg"] [] 3)
       (<[ ip81 := pool81 ]> {[ ip80 := pool80 ]}))
    (make 1) (make 1) None AtSelect
    [Returned ip80 (Some pool81, None); Returned ip81 (Some pool80, None)]
    [ EvPoolRequest (request_for ip80); EvNewConnectionPool [ip80] 10 150;
      EvPoolRequest (request_for ip81); EvNewConnectionPool [ip81] 10 150 ].

(** Two callers of one address, after the schedule [crossing]. *)
Definition same_callers : list Caller := [AtRequest ip80; AtRequest ip80].

Definition after_same : Machine :=
  mkMachine (mkState (mkWorld ["/tmp/thumb.jpg"] [] 2) {[ ip80 := pool80 ]})
    (make 1) (make 1) None AtSelect
    [Returned ip80 (Some pool80, None); Returned ip80 (Some pool80, None)]
    [ EvPoolRequest (request_for ip80); EvNewConnectionPool [ip80] 10 150;
      EvPoolRequest (request_for ip80) ].

(** A download from [group1], and a deletion in a group no storage
    server belongs to. *)
Definition a_download : Call := CDownloadToBuffer "group1/M00/00/00/abc.jpg" 10 5.
Definition a_deletion : Call := CDeleteFile "group9/M00/00/00/abc.jpg".

(** One call of each of the nine operations, all on [group1]. *)
Definition nine_calls : list Call :=
  [ CUploadByFilename "/tmp/thumb.jpg";
    CUploadByBuffer [] "jpg";
    CUploadSlaveByFilename "/tmp/thumb.jpg" "group1/M00/00/00/abc.jpg" "_thumb";
    CUploadSlaveByBuffer [] "group1/M00/00/00/abc.jpg" "jpg";
    CUploadAppenderByFilename "/tmp/thumb.jpg";
    CUploadAppenderByBuffer [] "log";
    CDeleteFile "group1/M00/00/00/abc.jpg";
    CDownloadToFile "/tmp/out.jpg" "group1/M00/00/00/abc.jpg" 0 0;
    CDownloadToBuffer "group1/M00/00/00/abc.jpg" 10 5 ].

End Demo.

(** * Properties *)

(** ** Splitting an identifier *)

Lemma break_at_app c g f :
  break_at c g = None → break_at c (g ++ String c f) = Some (g, f).
Proof.
  induction g as [|a g IH]; simpl.
  - intros _. by rewrite Ascii.eqb_refl.
  - destruct (Ascii.eqb a c); [done|].
    destruct (break_at c g) as [[g' f']|] eqn:E; [done|].
    intros _. by rewrite IH.
Qed.

Lemma break_at_Some c s g f :
  break_at c s = Some (g, f) → s = g ++ String c f ∧ break_at c g = None.
Proof.
  revert g; induction s as [|a s IH]; simpl; intros g; [done|].
  destruct (Ascii.eqb a c) eqn:Ea.
  - apply Ascii.eqb_eq in Ea as ->. by intros [= <- <-].
  - destruct (break_at c s) as [[g' f']|]; [|done].
    intros [= <- <-]. destruct (IH g' eq_refl) as [-> Hg].
    simpl. by rewrite Ea, Hg.
Qed.

Lemma well_formed_id_break s :
  well_formed_id s ↔
  ∃ g f, break_at slash s = Some (g, f) ∧ g ≠ "" ∧ f ≠ "".
Proof.
  split.
  - intros (g & f & -> & Hg & Hf & Hb). exists g, f.
    by rewrite (break_at_app _ _ _ Hb).
  - intros (g & f & Hb & Hg & Hf).
    apply break_at_Some in Hb as [-> Hb]. by exists g, f.
Qed.

Lemma no_separator_malformed s : break_at slash s = None → ¬ well_formed_id s.
Proof.
  intros Hb (g & f & Hs & _)%well_formed_id_break. congruence.
Qed.

Section Properties.
Context `{Pkg : Package}.


Lemma split_malformed s :
  ¬ well_formed_id s → splitRemoteFileId s = ([], Some errRemoteFileId).
Proof.
  intros Hs. unfold splitRemoteFileId.
  destruct (break_at slash s) as [[g f]|] eqn:E; [|done].
  apply break_at_Some in E as [-> Hb].
  destruct (decide (g = "")) as [->|Hg]; [done|].
  destruct (decide (f = "")) as [->|Hf].
  { by rewrite bool_decide_eq_false_2. }
  exfalso. apply Hs. by exists g, f.
Qed.

Lemma split_two_parts s :
  splitRemoteFileId s = ([], Some errRemoteFileId) ∨
  ∃ g f, splitRemoteFileId s = ([g; f], None) ∧ s = g ++ String slash f ∧
         g ≠ "" ∧ f ≠ "" ∧ break_at slash g = None.
Proof.
  unfold splitRemoteFileId.
  destruct (break_at slash s) as [[g f]|] eqn:E; [|by left].
  apply break_at_Some in E as [-> Hb].
  destruct (decide (g = "")) as [->|Hg]; [by left|].
  destruct (decide (f = "")) as [->|Hf].
  { left. by rewrite bool_decide_eq_false_2. }
  right. exists g, f. by rewrite !bool_decide_eq_false_2.
Qed.

(** ** The monad *)

Lemma state_eta (s : State) : mkState (world s) (storagePoolMap s) = s.
Proof. by destruct s. Qed.

Lemma observe_eq {A} ev (f : World → A) s :
  observe ev f s = (f (world s), s, [ev]).
Proof. unfold observe, call. by rewrite state_eta. Qed.

Lemma bind_eq {A B} (m : M A) (k : A → M B) s a s1 t1 :
  m s = (a, s1, t1) →
  bind m k s = ((k a s1).1.1, (k a s1).1.2, (t1 ++ (k a s1).2)%list).
Proof. unfold bind. intros ->. by destruct (k a s1) as [[b s2] t2]. Qed.

(** ** C7: the local file check of the filename-based uploads *)

(** C7. When the local file check [fdfsCheckFile] fails with [err],
    each of [UploadByFilename], [UploadSlaveByFilename] and
    [UploadAppenderByFilename] returns [nil] and an error whose message
    is [err]'s message followed by ["(uploading)"]; the check is the only
    call it has made (no tracker query, no pool request, no storage
    call) and the state is as before. *)
Theorem local_check_failure_is_reported
    (this : FastDFSClient ConnectionPool) (filename : string) (err : error)
    (s : State) :
  fdfsCheckFile filename (world s) = Some err →
  UploadByFilename this filename s
    = ((None, Some (err ++ "(uploading)")), s, [EvCheckFile filename]) ∧
  (∀ remoteFileId prefixName,
     UploadSlaveByFilename this filename remoteFileId prefixName s
       = ((None, Some (err ++ "(uploading)")), s, [EvCheckFile filename])) ∧
  UploadAppenderByFilename this filename s
    = ((None, Some (err ++ "(uploading)")), s, [EvCheckFile filename]).
Proof.
  intros Hchk.
  repeat split; intros;
    unfold UploadByFilename, UploadSlaveByFilename, UploadAppenderByFilename;
    by rewrite (bind_eq _ _ _ _ _ _ (observe_eq _ _ _)), Hchk.
Qed.

(** ** C2: malformed identifiers *)

(** C2 (amended). For every operation taking a remote file identifier
    ([DeleteFile], [DownloadToFile], [DownloadToBuffer],
    [UploadSlaveByFilename], [UploadSlaveByBuffer]), if the identifier
    does not split into exactly two non-empty components, the operation
    makes no tracker query, no pool request and no storage call, leaves
    the state as it was, and returns [nil] with an error: the format
    error of [splitRemoteFileId], except that [UploadSlaveByFilename]
    whose local file check fails returns that check's error with
    ["(uploading)"] appended. *)
Theorem malformed_identifier_short_circuits
    (this : FastDFSClient ConnectionPool) (c : Call) (id : string)
    (s : State) :
  identifier c = Some id →
  ¬ well_formed_id id →
  result (perform this c) s
    = failed c (Some (match local_check c s with
                      | Some err => err ++ "(uploading)"
                      | None => errRemoteFileId
                      end)) ∧
  filter is_network (events (perform this c) s) = [] ∧
  final (perform this c) s = s.
Proof.
  intros Hid Hbad. apply split_malformed in Hbad.
  unfold result, final, events, local_check.
  destruct c; simplify_eq/=; unfold lift;
    unfold UploadSlaveByFilename, UploadSlaveByBuffer, DeleteFile,
      DownloadToFile, DownloadToBuffer;
    rewrite ?(bind_eq _ _ _ _ _ _ (observe_eq _ _ _)), ?Hbad;
    try done.
  by destruct (fdfsCheckFile filename (world s)).
Qed.

(** ** The registry *)

Lemma registry_serve_hit spd s p :
  storagePoolMap s !! addr spd = Some p →
  registry_serve spd s = (IPool p, s, []).
Proof. unfold registry_serve, bind, lookupPool, ret. by intros ->. Qed.

Lemma registry_serve_miss spd s :
  storagePoolMap s !! addr spd = None →
  registry_serve spd s =
    let ev := EvNewConnectionPool [addr spd] (minConns spd) (maxConns spd) in
    match NewConnectionPool [addr spd] (minConns spd) (maxConns spd)
            (world s) with
    | (inl sp, w) =>
        (IPool sp, mkState w (<[addr spd := sp]> (storagePoolMap s)), [ev])
    | (inr err, w) => (IError err, mkState w (storagePoolMap s), [ev])
    end.
Proof.
  unfold registry_serve, bind, lookupPool, call, storePool, ret.
  intros ->. simpl.
  by destruct (NewConnectionPool _ _ _ _) as [[sp|err] w].
Qed.

(** The goroutine never overwrites or removes an entry. *)
Lemma registry_serve_keeps spd s ip p :
  storagePoolMap s !! ip = Some p →
  storagePoolMap (final (registry_serve spd) s) !! ip = Some p.
Proof.
  intros Hp. unfold final.
  destruct (storagePoolMap s !! addr spd) as [q|] eqn:E.
  - by rewrite (registry_serve_hit _ _ _ E).
  - rewrite (registry_serve_miss _ _ E). simpl.
    destruct (NewConnectionPool _ _ _ _) as [[sp|err] w]; simpl; [|done].
    rewrite lookup_insert_ne; [done|]. intros Heq. congruence.
Qed.

Lemma getStoragePool_eq this ip s :
  getStoragePool this ip s =
    let '(v, s', t) := registry_serve (request_for ip) s in
    (type_switch v, s', EvPoolRequest (request_for ip) :: t).
Proof.
  unfold getStoragePool, bind, send_request, ret.
  destruct (registry_serve _ _) as [[v s'] t]. simpl.
  by rewrite app_nil_r.
Qed.

(** ** C4: an existing pool is reused *)

(** C4. When [storagePoolMap] already holds a pool for an address, the
    goroutine answers a request for that address with that pool, calling
    nothing ([NewConnectionPool] is not called again) and changing
    nothing; [getStoragePool] then returns that pool and no error, its
    only recorded step being the request itself. *)
Theorem existing_pool_is_reused (s : State) (ip : string)
    (p : ConnectionPool) :
  storagePoolMap s !! ip = Some p →
  (∀ spd, addr spd = ip → registry_serve spd s = (IPool p, s, [])) ∧
  (∀ this, getStoragePool this ip s
           = ((Some p, None), s, [EvPoolRequest (request_for ip)])).
Proof.
  intros Hp. split.
  - intros spd <-. by apply registry_serve_hit.
  - intros this. rewrite getStoragePool_eq.
    by rewrite (registry_serve_hit (request_for ip) s p Hp).
Qed.

(** ** C5: a failed construction is not recorded *)

(** C5. When [NewConnectionPool] fails with [err] for an address that
    has no pool, the goroutine answers the request with [err], which
    [getStoragePool] returns to its caller with a [nil] pool, and
    [storagePoolMap] is unchanged, with still no entry for the address;
    any later request for the address calls [NewConnectionPool] again,
    and if that call succeeds its pool is the answer and is recorded. *)
Theorem failed_construction_is_not_recorded
    (this : FastDFSClient ConnectionPool) (s : State) (ip : string)
    (err : error) (w : World) :
  storagePoolMap s !! ip = None →
  NewConnectionPool [ip] 10 150 (world s) = (inr err, w) →
  let s' := final (getStoragePool this ip) s in
  result (registry_serve (request_for ip)) s = IError err ∧
  result (getStoragePool this ip) s = (None, Some err) ∧
  s' = mkState w (storagePoolMap s) ∧
  storagePoolMap s' !! ip = None ∧
  (∀ spd2, addr spd2 = ip →
     pool_constructions (events (registry_serve spd2) s')
       = [([ip], minConns spd2, maxConns spd2)]) ∧
  (∀ spd2 sp w2, addr spd2 = ip →
     NewConnectionPool [ip] (minConns spd2) (maxConns spd2) w = (inl sp, w2) →
     result (registry_serve spd2) s' = IPool sp ∧
     storagePoolMap (final (registry_serve spd2) s') !! ip = Some sp).
Proof.
  intros Hnone Hfail s'. subst s'. unfold result, final, events.
  rewrite getStoragePool_eq.
  rewrite (registry_serve_miss (request_for ip) s Hnone). simpl.
  rewrite Hfail. simpl.
  split_and!; try done.
  - intros spd2 Heq.
    rewrite registry_serve_miss by (simpl; by rewrite Heq).
    simpl. rewrite Heq.
    destruct (NewConnectionPool _ (minConns spd2) _ w) as [[sp|e] w2];
      reflexivity.
  - intros spd2 sp w2 Heq Hok.
    rewrite registry_serve_miss by (simpl; by rewrite Heq).
    simpl. rewrite Heq, Hok. simpl. by rewrite lookup_insert_eq.
Qed.

(** ** The goroutines *)

Lemma run_app sched1 sched2 m :
  run (sched1 ++ sched2)%list m = run sched1 m ≫= run sched2.
Proof.
  revert m; induction sched1 as [|a sched1 IH]; intros m; simpl; [done|].
  destruct (step a m); simpl; [apply IH|done].
Qed.

(** A property every move preserves holds after any schedule. *)
Lemma run_invariant (Inv : Machine → Prop) :
  (∀ a m m', Inv m → step a m = Some m' → Inv m') →
  ∀ sched m m', Inv m → run sched m = Some m' → Inv m'.
Proof.
  intros Hstep sched. induction sched as [|a sched IH]; simpl; intros m m' Hm.
  - by intros [= <-].
  - destruct (step a m) as [m1|] eqn:E; [|done]. eauto.
Qed.

Lemma step_Step a m m' : step a m = Some m' ↔ Step a m m'.
Proof.
  split.
  - unfold step. intros H. destruct a.
    + destruct (registry m) eqn:Hr; [|done].
      destruct (chan_recv (storagePoolChan m)) as [[spd ch]|] eqn:Hc; [|done].
      simpl in H. pose proof (Step_request m spd ch Hr Hc) as HS.
      unfold result, final, events in HS.
      destruct (registry_serve spd (shared m)) as [[v s'] t].
      by injection H as <-.
    + destruct (registry m) eqn:Hr; [|done].
      destruct (chan_recv (quit m)) as [[b ch]|] eqn:Hc; [|done].
      simpl in H. injection H as <-. by eapply Step_quit.
    + destruct (registry m) eqn:Hr; [done|].
      destruct (chan_send (fetchStoragePoolChan m) v) as [ch|] eqn:Hc; [|done].
      simpl in H. injection H as <-. by eapply Step_reply.
    + assert (H' : callers m !! i ≫= (λ c, caller_step i c m) = Some m')
        by (by destruct (registry m)).
      clear H. destruct (callers m !! i) as [c|] eqn:Hi; [|done].
      simpl in H'. unfold caller_step in H'. destruct c; try done.
      * destruct (chan_send (storagePoolChan m) (request_for ip)) as [ch|]
          eqn:Hc; [|done].
        simpl in H'. injection H' as <-. by eapply Step_caller_request.
      * destruct (chan_recv (fetchStoragePoolChan m)) as [[v ch]|] eqn:Hc;
          [|done].
        simpl in H'. injection H' as <-. by eapply Step_caller_result.
      * destruct (chan_send (quit m) true) as [ch|] eqn:Hc; [|done].
        simpl in H'. injection H' as <-. by eapply Step_caller_quit.
  - intros [m0 spd ch Hr Hc|m0 b ch Hr Hc|m0 v ch Hr Hc|m0 i ip ch Hi Hc
           |m0 i ip v ch Hi Hc|m0 i ch Hi Hc]; unfold step.
    + rewrite Hr, Hc. simpl. unfold result, final, events.
      by destruct (registry_serve spd (shared m0)) as [[v s'] t].
    + by rewrite Hr, Hc.
    + by rewrite Hr, Hc.
    + assert (callers m0 !! i ≫= (λ c, caller_step i c m0) = Some
                (mkMachine (shared m0) ch (fetchStoragePoolChan m0) (quit m0)
                   (registry m0) (<[i := AtResult ip]> (callers m0))
                   (history m0 ++ [EvPoolRequest (request_for ip)])%list))
        as Hgoal by (rewrite Hi; simpl; by rewrite Hc).
      by destruct (registry m0).
    + assert (callers m0 !! i ≫= (λ c, caller_step i c m0) = Some
                (mkMachine (shared m0) (storagePoolChan m0) ch (quit m0)
                   (registry m0)
                   (<[i := Returned ip (type_switch v)]> (callers m0))
                   (history m0)))
        as Hgoal by (rewrite Hi; simpl; by rewrite Hc).
      by destruct (registry m0).
    + assert (callers m0 !! i ≫= (λ c, caller_step i c m0) = Some
                (mkMachine (shared m0) (storagePoolChan m0)
                   (fetchStoragePoolChan m0) ch (registry m0)
                   (<[i := CloseReturned]> (callers m0)) (history m0)))
        as Hgoal by (rewrite Hi; simpl; by rewrite Hc).
      by destruct (registry m0).
Qed.

Lemma step_keeps a m m' ip p :
  storagePoolMap (shared m) !! ip = Some p →
  step a m = Some m' →
  storagePoolMap (shared m') !! ip = Some p.
Proof.
  intros Hp H%step_Step. destruct H; simpl; try done.
  by apply registry_serve_keeps.
Qed.

(** While the map holds a pool for [ip], serving a request constructs no
    pool for [ip]. *)
Lemma registry_serve_builds_no_second spd s ip p mn mx :
  storagePoolMap s !! ip = Some p →
  EvNewConnectionPool [ip] mn mx ∉ events (registry_serve spd) s.
Proof.
  intros Hp. unfold events.
  destruct (storagePoolMap s !! addr spd) as [q|] eqn:E.
  - rewrite (registry_serve_hit _ _ _ E). simpl. apply not_elem_of_nil.
  - rewrite (registry_serve_miss _ _ E). simpl.
    assert (addr spd ≠ ip) by congruence.
    destruct (NewConnectionPool _ _ _ _) as [[sp|err] w]; simpl;
      rewrite list_elem_of_singleton; congruence.
Qed.

Lemma step_builds_no_second a m m' ip p :
  storagePoolMap (shared m) !! ip = Some p →
  step a m = Some m' →
  ∃ t, history m' = (history m ++ t)%list ∧
       ∀ mn mx, EvNewConnectionPool [ip] mn mx ∉ t.
Proof.
  intros Hp H%step_Step. destruct H; simpl.
  - eexists; split; [done|]. intros mn mx.
    by eapply registry_serve_builds_no_second.
  - exists []. rewrite app_nil_r. split; [done|]. intros; apply not_elem_of_nil.
  - exists []. rewrite app_nil_r. split; [done|]. intros; apply not_elem_of_nil.
  - eexists; split; [done|]. intros mn mx.
    rewrite list_elem_of_singleton. congruence.
  - exists []. rewrite app_nil_r. split; [done|]. intros; apply not_elem_of_nil.
  - exists []. rewrite app_nil_r. split; [done|]. intros; apply not_elem_of_nil.
Qed.

Lemma run_builds_no_second sched m m' ip p :
  storagePoolMap (shared m) !! ip = Some p →
  run sched m = Some m' →
  storagePoolMap (shared m') !! ip = Some p ∧
  ∃ t, history m' = (history m ++ t)%list ∧
       ∀ mn mx, EvNewConnectionPool [ip] mn mx ∉ t.
Proof.
  revert m. induction sched as [|a sched IH]; simpl; intros m Hp.
  - intros [= <-]. split; [done|]. exists []. rewrite app_nil_r.
    split; [done|]. intros; apply not_elem_of_nil.
  - destruct (step a m) as [m1|] eqn:E; [|done]. intros Hrun.
    pose proof (step_keeps _ _ _ _ _ Hp E) as Hp1.
    destruct (step_builds_no_second _ _ _ _ _ Hp E) as (t1 & Ht1 & Hn1).
    destruct (IH m1 Hp1 Hrun) as (Hp' & t2 & Ht2 & Hn2).
    split; [done|]. exists (t1 ++ t2)%list. split.
    + by rewrite Ht2, Ht1, app_assoc.
    + intros mn mx [?|?]%elem_of_app; [by eapply Hn1|by eapply Hn2].
Qed.

(** ** C1: one pool per address, for good *)

(** C1. [storagePoolMap] is a map, so it holds at most one pool for an
    address; and once it holds pool [p] for an address, then after any
    further moves of the goroutine and of any callers it still holds [p]
    for that address (the entry is neither overwritten nor removed), no
    other pool has been constructed for the address, the goroutine
    answers every request for that address with [p], constructing
    nothing and leaving the state untouched, and [getStoragePool] for
    that address, run with no other caller in flight, returns [p]. *)
Theorem recorded_pool_is_permanent (sched : list Action) (m m' : Machine)
    (ip : string) (p : ConnectionPool) :
  storagePoolMap (shared m) !! ip = Some p →
  run sched m = Some m' →
  storagePoolMap (shared m') !! ip = Some p ∧
  (∃ t, history m' = (history m ++ t)%list ∧
        ∀ mn mx, EvNewConnectionPool [ip] mn mx ∉ t) ∧
  (∀ spd, addr spd = ip →
     registry_serve spd (shared m') = (IPool p, shared m', [])) ∧
  (∀ spd ch m'',
     chan_recv (storagePoolChan m') = Some (spd, ch) → addr spd = ip →
     step RegistryTakesRequest m' = Some m'' →
     registry m'' = AtReply (IPool p) ∧ shared m'' = shared m' ∧
     history m'' = history m') ∧
  (∀ this, result (getStoragePool this ip) (shared m') = (Some p, None)).
Proof.
  intros Hp Hrun.
  destruct (run_builds_no_second _ _ _ _ _ Hp Hrun) as [Hp' Hhist].
  split_and!; [done|done| | |].
  - intros spd <-. by apply registry_serve_hit.
  - intros spd ch m'' Hrecv <- Hstep.
    unfold step in Hstep. destruct (registry m'); [|done].
    rewrite Hrecv in Hstep. simpl in Hstep.
    rewrite (registry_serve_hit _ _ _ Hp') in Hstep.
    injection Hstep as <-. simpl. by rewrite app_nil_r.
  - intros this. unfold result. rewrite getStoragePool_eq.
    by rewrite (registry_serve_hit (request_for ip) _ p Hp').
Qed.

(** ** Callers of one address

    The replies carry no address, but when every caller asks for the
    same address there is one pool they can carry. *)

Lemma chan_send_queued {A} (c c' : option (chan A)) a :
  chan_send c a = Some c' → queued c' = (queued c ++ [a])%list.
Proof.
  destruct c as [ch|]; simpl; [|done].
  case_decide; [|done]. by intros [= <-].
Qed.

Lemma chan_recv_queued {A} (c c' : option (chan A)) a :
  chan_recv c = Some (a, c') → queued c = a :: queued c'.
Proof.
  destruct c as [[n [|b rest]]|]; simpl; try done. by intros [= <- <-].
Qed.

Lemma type_switch_pool v q e : type_switch v = (Some q, e) → v = IPool q.
Proof. destruct v; simpl; congruence. Qed.

Lemma step_same_address a m m' ip :
  only_for ip m → pools_agree ip m → step a m = Some m' →
  only_for ip m' ∧ pools_agree ip m'.
Proof.
  intros [Hreq Hcs] (Hreg & Hfetch & Hret) H%step_Step.
  destruct H as [m spd ch Hr Hc|m b ch Hr Hc|m v ch Hr Hc|m j a' ch Hj Hc
                |m j a' v ch Hj Hc|m j ch Hj Hc];
    unfold only_for, pools_agree; simpl.
  - apply chan_recv_queued in Hc. rewrite Hc in Hreq.
    apply Forall_cons in Hreq as [Hspd Hreq].
    split; [done|]. unfold result, final.
    destruct (storagePoolMap (shared m) !! addr spd) as [p|] eqn:E.
    + rewrite (registry_serve_hit _ _ _ E). simpl.
      split_and!; [|done|done]. intros q [= <-]. by rewrite <- Hspd.
    + rewrite (registry_serve_miss _ _ E). simpl. rewrite Hspd in *.
      destruct (NewConnectionPool _ _ _ _) as [[sp|err] w]; simpl.
      * split_and!.
        -- intros q [= <-]. by rewrite lookup_insert_eq.
        -- eapply Forall_impl; [exact Hfetch|]. simpl.
           intros v Hv q Hq. specialize (Hv q Hq). congruence.
        -- eapply Forall_impl; [exact Hret|]. simpl.
           intros c Hc' a0 q e Hq. specialize (Hc' a0 q e Hq). congruence.
      * split_and!; [done|done|done].
  - split; [done|]. split_and!; [done|done|done].
  - split; [done|]. split_and!; [done| |done].
    rewrite (chan_send_queued _ _ _ Hc). apply Forall_app. split; [done|].
    apply Forall_singleton. intros q ->. by apply Hreg.
  - assert (a' = ip) as ->.
    { eapply Forall_lookup_1 in Hcs; [|exact Hj]. by apply Hcs. }
    split_and!; [| |done|done|].
    + rewrite (chan_send_queued _ _ _ Hc). apply Forall_app. split; [done|].
      by apply Forall_singleton.
    + apply Forall_insert; [done|]. by intros a [= <-].
    + apply Forall_insert; [done|]. done.
  - assert (a' = ip) as ->.
    { eapply Forall_lookup_1 in Hcs; [|exact Hj]. by apply Hcs. }
    apply chan_recv_queued in Hc. rewrite Hc in Hfetch.
    apply Forall_cons in Hfetch as [Hv Hfetch].
    split_and!; [done| |done|done|].
    + apply Forall_insert; [done|]. by intros a [= <-].
    + apply Forall_insert; [done|].
      intros a q e [= _ Hts]. apply Hv. by eapply type_switch_pool.
  - split_and!; [done| |done|done|].
    + apply Forall_insert; [done|]. done.
    + apply Forall_insert; [done|]. done.
Qed.

(** However the scheduler interleaves callers that all ask for [ip],
    every pool a caller has got back is the one pool [storagePoolMap]
    holds for [ip]; so any two callers that got a pool got the same. *)
Theorem same_address_callers_agree w cs sched m' ip :
  Forall (λ c, c = AtRequest ip) cs →
  run sched (boot w cs) = Some m' →
  (∀ i a q e, callers m' !! i = Some (Returned a (Some q, e)) →
              storagePoolMap (shared m') !! ip = Some q) ∧
  (∀ i j a b q1 q2 e1 e2,
     callers m' !! i = Some (Returned a (Some q1, e1)) →
     callers m' !! j = Some (Returned b (Some q2, e2)) → q1 = q2).
Proof.
  intros Hcs Hrun.
  assert (Hinv : only_for ip m' ∧ pools_agree ip m').
  { revert Hrun.
    apply (run_invariant (λ m, only_for ip m ∧ pools_agree ip m)).
    - intros a m1 m2 [H1 H2] Hstep. by eapply step_same_address.
    - unfold only_for, pools_agree, boot. simpl. split_and!; try done.
      + eapply Forall_impl; [exact Hcs|]. by intros c -> a [= <-].
      + eapply Forall_impl; [exact Hcs|]. by intros c -> a q e. }
  destruct Hinv as [_ (_ & _ & Hret)].
  assert (Hone : ∀ i a q e, callers m' !! i = Some (Returned a (Some q, e)) →
                            storagePoolMap (shared m') !! ip = Some q).
  { intros i a q e Hi. eapply Forall_lookup_1 in Hret; [|exact Hi].
    by eapply Hret. }
  split; [done|].
  intros i j a b q1 q2 e1 e2 Hi Hj.
  apply Hone in Hi. apply Hone in Hj. congruence.
Qed.

(** ** [getStoragePool] on the goroutines

    With one caller in flight, empty channels and the goroutine at its
    [select], the moves of [getStoragePool] and of the goroutine come in
    one order only, and give what the sequential [getStoragePool]
    computes. *)
Lemma getStoragePool_on_machine this m i ip :
  storagePoolChan m = make 1 →
  fetchStoragePoolChan m = make 1 →
  registry m = AtSelect →
  callers m !! i = Some (AtRequest ip) →
  run [CallerMoves i; RegistryTakesRequest; RegistryReplies; CallerMoves i] m
  = Some (mkMachine (final (getStoragePool this ip) (shared m)) (make 1)
            (make 1) (quit m) AtSelect
            (<[i := Returned ip (result (getStoragePool this ip) (shared m))]>
               (callers m))
            (history m ++ events (getStoragePool this ip) (shared m))%list).
Proof.
  intros Hc1 Hc2 Hr Hi.
  assert (Hlen : (i < length (callers m))%nat) by by eapply lookup_lt_Some.
  cbn [run].
  erewrite (proj2 (step_Step _ _ _));
    [|eapply Step_caller_request; [exact Hi|by rewrite Hc1]].
  erewrite (proj2 (step_Step _ _ _));
    [|eapply Step_request; simpl; [exact Hr|reflexivity]].
  erewrite (proj2 (step_Step _ _ _));
    [|eapply Step_reply; simpl; [reflexivity|by rewrite Hc2]].
  erewrite (proj2 (step_Step _ _ _));
    [|eapply Step_caller_result; simpl;
      [by apply list_lookup_insert_eq|reflexivity]].
  simpl. rewrite list_insert_insert_eq.
  unfold result, final, events. rewrite getStoragePool_eq.
  destruct (registry_serve (request_for ip) (shared m)) as [[v s'] t] eqn:E.
  simpl. by rewrite <- app_assoc.
Qed.

(** ** C10: [Close] *)

(** [quit] is [nil] when the package starts and no move makes it. *)
Lemma quit_stays_nil a m m' : quit m = None → step a m = Some m' → quit m' = None.
Proof.
  intros Hq H%step_Step.
  destruct H as [m spd ch|m b ch Hr Hc|m v ch|m j ip ch Hj|m j ip v ch Hj
                |m j ch Hj Hs]; simpl; try done.
  - by rewrite Hq in Hc.
  - by rewrite Hq in Hs.
Qed.

Lemma close_stays_blocked a m m' i :
  quit m = None →
  callers m !! i = Some AtQuit →
  step a m = Some m' →
  callers m' !! i = Some AtQuit.
Proof.
  intros Hq Hi H%step_Step.
  destruct H as [m spd ch|m b ch|m v ch|m j ip ch Hj|m j ip v ch Hj
                |m j ch Hj Hs]; simpl; try done.
  - rewrite list_lookup_insert_ne; [done|]. intros ->. congruence.
  - rewrite list_lookup_insert_ne; [done|]. intros ->. congruence.
  - by rewrite Hq in Hs.
Qed.

(** [break] in [case <-quit] leaves the [select], not the [for]: were a
    value ever received from [quit], the goroutine would be back at its
    [select] with the map and every pool as before. *)
Lemma quit_case_loops m m' :
  step RegistryTakesQuit m = Some m' →
  registry m' = AtSelect ∧ shared m' = shared m ∧ history m' = history m.
Proof. intros H%step_Step. by inversion H. Qed.

(** C10 (what the code does). From the start of the package, whatever
    the scheduler does, a caller inside [Close] stays at [quit <- true]:
    it cannot move, [Close] has not returned, and the goroutine cannot
    take the [quit] case of its [select]. *)
Theorem Close_never_returns (w : World) (cs : list Caller)
    (sched : list Action) (m' : Machine) (i : nat) :
  cs !! i = Some AtQuit →
  run sched (boot w cs) = Some m' →
  callers m' !! i = Some AtQuit ∧
  step (CallerMoves i) m' = None ∧
  step RegistryTakesQuit m' = None.
Proof.
  intros Hi Hrun.
  assert (Hinv : quit m' = None ∧ callers m' !! i = Some AtQuit).
  { revert Hrun.
    apply (run_invariant
             (λ m, quit m = None ∧ callers m !! i = Some AtQuit)); [|done].
    intros a m1 m2 [Hq Hc] Hstep. split.
    - by eapply quit_stays_nil.
    - by eapply close_stays_blocked. }
  destruct Hinv as [Hq Hc]. split_and!; [done| |].
  - unfold step. destruct (registry m'); rewrite Hc; simpl; by rewrite Hq.
  - unfold step. destruct (registry m'); [|done]. by rewrite Hq.
Qed.

(** ** The shape of an operation *)

Ltac unfold_ops :=
  unfold getStoragePool, registry_serve, send_request, lookupPool, storePool,
    bind, observe, call, ret.

(** All the paths of an operation: the identifier splits or not, then
    each outside call succeeds or not. *)
Ltac op_paths c :=
  unfold result, final, events, local_check;
  destruct c; simpl;
  unfold lift, UploadByFilename, UploadByBuffer,
    UploadSlaveByFilename, UploadSlaveByBuffer, UploadAppenderByFilename,
    UploadAppenderByBuffer, DeleteFile, DownloadToFile, DownloadToBuffer;
  try match goal with
    | |- context [splitRemoteFileId ?id] =>
        let g := fresh "g" in
        let f := fresh "f" in
        destruct (split_two_parts id) as [-> | (g & f & -> & _)]
    end;
  unfold_ops;
  repeat case_match; simplify_eq/=.

(** An operation consults the registry once for each storage call it
    makes, for the address of the server it calls, with bounds 10/150. *)
Lemma pool_requests_eq this c s :
  pool_requests (events (perform this c) s)
    = map (λ x, mkStoragePool (ipAddr x.1.2) 10 150)
        (storage_calls (events (perform this c) s)).
Proof. op_paths c; done. Qed.

Lemma pool_constructions_bounds this c s :
  Forall (λ x, x.1.2 = 10 ∧ x.2 = 150)
    (pool_constructions (events (perform this c) s)).
Proof. op_paths c; repeat constructor. Qed.

(** The pool handed to the executor is what the map holds for the
    address once [getStoragePool] is back: [nil] when there is none.  The
    error [getStoragePool] returns is not looked at. *)
Lemma executor_gets_the_pool_or_nil this c s store serv sc :
  (store, serv, sc) ∈ storage_calls (events (perform this c) s) →
  sc_pool store = storagePoolMap (final (perform this c) s) !! ipAddr serv.
Proof.
  op_paths c; rewrite ?elem_of_cons, ?elem_of_nil;
    intros; destruct_or?; simplify_eq/=; try done;
    by rewrite ?lookup_insert_eq.
Qed.

(** So the executor is called as many times as the registry is asked,
    whatever the registry answered. *)
Lemma executor_follows_every_pool_request this c s :
  length (storage_calls (events (perform this c) s))
  = length (pool_requests (events (perform this c) s)).
Proof. by rewrite pool_requests_eq, length_map. Qed.


(** ** C9: the tracker query of each operation *)


End Properties.

(** * Runs on the concrete package *)

Section Runs.
Import Demo.

Example upload_by_buffer_run :
  UploadByBuffer client [] "jpg" (start w0)
  = ((Some "group1", None),
     mkState (mkWorld ["/tmp/thumb.jpg"] [] 2) {[ ip80 := pool80 ]},
     [ EvTracker (mkTrackerClient (Some tracker_pool)) QStorWithoutGroup;
       EvPoolRequest (mkStoragePool ip80 10 150);
       EvNewConnectionPool [ip80] 10 150;
       EvStorage (mkStorageClient (Some pool80)) (mkServer ip80 "group1")
         (SUploadByBuffer [] "jpg") ]).
Proof. reflexivity. Qed.

Example delete_no_slash :
  DeleteFile client "noSlashHere" (start w0)
  = (Some "error remoteFileId", start w0, []).
Proof. reflexivity. Qed.

Example serve_second_run :
  run serve_second (boot w0 close_and_request) = Some after_serve_second.
Proof. reflexivity. Qed.

Example serve_first_run : run serve_first warm_machine = Some after_serve_first.
Proof. reflexivity. Qed.

(** ** C1, C4, C5: the registry *)

Lemma recorded_pool_is_permanent_witness :
  storagePoolMap (shared after_serve_first) !! ip80 = Some pool80 ∧
  (∃ t, history after_serve_first = (history warm_machine ++ t)%list ∧
        ∀ mn mx, EvNewConnectionPool [ip80] mn mx ∉ t) ∧
  (∀ spd, addr spd = ip80 →
     registry_serve spd (shared after_serve_first)
     = (IPool pool80, shared after_serve_first, [])) ∧
  (∀ spd ch m'',
     chan_recv (storagePoolChan after_serve_first) = Some (spd, ch) →
     addr spd = ip80 →
     step RegistryTakesRequest after_serve_first = Some m'' →
     registry m'' = AtReply (IPool pool80) ∧
     shared m'' = shared after_serve_first ∧
     history m'' = history after_serve_first) ∧
  (∀ this, result (getStoragePool this ip80) (shared after_serve_first)
           = (Some pool80, None)).
Proof.
  apply (recorded_pool_is_permanent serve_first warm_machine
           after_serve_first ip80 pool80); reflexivity.
Defined.

Lemma existing_pool_is_reused_witness :
  (∀ spd, addr spd = ip80 → registry_serve spd warm = (IPool pool80, warm, [])) ∧
  (∀ this, getStoragePool this ip80 warm
           = ((Some pool80, None), warm, [EvPoolRequest (request_for ip80)])).
Proof. apply (existing_pool_is_reused warm ip80 pool80). reflexivity. Defined.

Lemma failed_construction_is_not_recorded_witness :
  let s' := final (getStoragePool client ip80) (start w_down) in
  result (registry_serve (request_for ip80)) (start w_down) = IError refused ∧
  result (getStoragePool client ip80) (start w_down) = (None, Some refused) ∧
  s' = mkState w_down (storagePoolMap (start w_down)) ∧
  storagePoolMap s' !! ip80 = None ∧
  (∀ spd2, addr spd2 = ip80 →
     pool_constructions (events (registry_serve spd2) s')
       = [([ip80], minConns spd2, maxConns spd2)]) ∧
  (∀ spd2 sp w2, addr spd2 = ip80 →
     NewConnectionPool [ip80] (minConns spd2) (maxConns spd2) w_down
       = (inl sp, w2) →
     result (registry_serve spd2) s' = IPool sp ∧
     storagePoolMap (final (registry_serve spd2) s') !! ip80 = Some sp).
Proof.
  apply (failed_construction_is_not_recorded (Pkg := pkg) client
           (start w_down) ip80 refused w_down); reflexivity.
Defined.

(** ** C2: malformed identifiers *)

(** C2 as stated fails: [UploadSlaveByFilename] checks its local file
    before it splits the identifier, so with a missing file and the
    malformed identifier [noSlashHere] it returns the error of the file
    check, not the format error. *)
Lemma slave_upload_reports_the_file_first :
  identifier (CUploadSlaveByFilename "/no/such/file" "noSlashHere" "_thumb")
    = Some "noSlashHere" ∧
  ¬ well_formed_id "noSlashHere" ∧
  UploadSlaveByFilename client "/no/such/file" "noSlashHere" "_thumb" (start w0)
    = ((None,
        Some "stat /no/such/file: no such file or directory(uploading)"),
       start w0, [EvCheckFile "/no/such/file"]) ∧
  answer_error
    (result
       (perform client
          (CUploadSlaveByFilename "/no/such/file" "noSlashHere" "_thumb"))
       (start w0))
    ≠ Some errRemoteFileId.
Proof.
  split_and!; [reflexivity| |reflexivity|discriminate].
  by apply no_separator_malformed.
Qed.

Lemma malformed_identifier_short_circuits_witness :
  result (perform client (CDeleteFile "noSlashHere")) (start w0)
    = ADelete (Some errRemoteFileId) ∧
  filter is_network
    (events (perform client (CDeleteFile "noSlashHere")) (start w0)) = [] ∧
  final (perform client (CDeleteFile "noSlashHere")) (start w0) = start w0.
Proof.
  apply (malformed_identifier_short_circuits (Pkg := pkg) client
           (CDeleteFile "noSlashHere") "noSlashHere" (start w0)).
  - reflexivity.
  - apply no_separator_malformed. reflexivity.
Defined.

(** ** C7, C9 *)

Lemma local_check_failure_is_reported_witness :
  UploadByFilename client "/no/such/file" (start w0)
    = ((None, Some "stat /no/such/file: no such file or directory(uploading)"),
       start w0, [EvCheckFile "/no/such/file"]) ∧
  (∀ remoteFileId prefixName,
     UploadSlaveByFilename client "/no/such/file" remoteFileId prefixName
       (start w0)
     = ((None,
         Some "stat /no/such/file: no such file or directory(uploading)"),
        start w0, [EvCheckFile "/no/such/file"])) ∧
  UploadAppenderByFilename client "/no/such/file" (start w0)
    = ((None, Some "stat /no/such/file: no such file or directory(uploading)"),
       start w0, [EvCheckFile "/no/such/file"]).
Proof.
  apply (local_check_failure_is_reported (Pkg := pkg) client "/no/such/file"
           "stat /no/such/file: no such file or directory" (start w0)).
  reflexivity.
Defined.


(** ** C3: the error of [getStoragePool] *)

(** C3 (what the code does). With the storage server of [group1]
    refusing connections, [getStoragePool] returns [nil] and the error of
    [NewConnectionPool]; each of the nine operations nevertheless calls
    its storage executor, with a storage client whose pool is [nil], and
    returns what the executor returns, not the pool error: the [err] that
    [getStoragePool] returns is assigned and never tested. *)
Theorem pool_error_is_ignored :
  getStoragePool client ip80 (start w_down)
    = ((None, Some refused), start w_down,
       [EvPoolRequest (request_for ip80); EvNewConnectionPool [ip80] 10 150]) ∧
  Forall
    (λ c,
       map (λ x, sc_pool x.1.1)
         (storage_calls (events (perform client c) (start w_down))) = [None] ∧
       answer_error (result (perform client c) (start w_down)) = Some no_pool ∧
       answer_error (result (perform client c) (start w_down)) ≠ Some refused)
    nine_calls.
Proof.
  split; [reflexivity|].
  repeat (constructor; [split_and!; [reflexivity|reflexivity|discriminate]|]).
  constructor.
Qed.

(** ** C6: two callers, one reply channel *)

(** C6 (what the code does). Two callers ask for the pools of two
    distinct addresses.  Under the schedule [crossing] both pools are
    built and recorded under their own addresses, and each caller
    returns the pool of the address the other one asked for: the replies
    travel on the one channel [fetchStoragePoolChan], and the caller that
    receives first gets the reply that was sent first. *)
Theorem shared_reply_channel_crosses_results :
  callers <$> run crossing (boot w0 two_callers)
    = Some [ Returned ip80 (Some pool81, None);
             Returned ip81 (Some pool80, None) ] ∧
  (λ m, (storagePoolMap (shared m) !! ip80, storagePoolMap (shared m) !! ip81))
    <$> run crossing (boot w0 two_callers)
    = Some (Some pool80, Some pool81) ∧
  ip80 ≠ ip81 ∧ pool80 ≠ pool81.
Proof. split_and!; [reflexivity|reflexivity|discriminate|discriminate]. Qed.

(** ** C10: [Close] *)

Lemma Close_never_returns_witness :
  callers after_serve_second !! 0%nat = Some AtQuit ∧
  step (CallerMoves 0) after_serve_second = None ∧
  step RegistryTakesQuit after_serve_second = None.
Proof.
  apply (Close_never_returns (Pkg := pkg) w0 close_and_request serve_second
           after_serve_second 0); reflexivity.
Defined.

End Runs.

(** * Further properties of [client.go] *)

Section Operations.
Context `{Pkg : Package}.

(** ** [New] *)

(** [New] makes one call, [NewConnectionPool (cfg.Endpoints, 10, 150)]:
    when it fails [New] returns no client and that error; when it gives
    a pool [New] returns a client holding that pool and no error.  Either
    way [storagePoolMap] is not touched: the tracker pool is not a
    registry entry. *)
Theorem New_returns_pool_or_error (cfg : Config) (s : State) :
  storagePoolMap (final (New cfg) s) = storagePoolMap s ∧
  world (final (New cfg) s)
    = (NewConnectionPool (Endpoints cfg) 10 150 (world s)).2 ∧
  match (NewConnectionPool (Endpoints cfg) 10 150 (world s)).1 with
  | inl p => result (New cfg) s = (Some (mkFastDFSClient (Some p) 0), None)
  | inr err => result (New cfg) s = (None, Some err)
  end.
Proof.
  unfold result, final, New, bind, call, ret.
  by destruct (NewConnectionPool _ _ _ _) as [[p|err] w].
Qed.

(** ** The two ends of an operation *)

Lemma bind_observe {A B} ev (f : World → A) (k : A → M B) s :
  bind (observe ev f) k s =
    let '(b, s2, t2) := k (f (world s)) s in (b, s2, ev :: t2).
Proof. unfold bind. by rewrite observe_eq. Qed.

Lemma bind_call {A B} ev (f : World → A * World) (k : A → M B) s a w :
  f (world s) = (a, w) →
  bind (call ev f) k s =
    let '(b, s2, t2) := k a (mkState w (storagePoolMap s)) in (b, s2, ev :: t2).
Proof. unfold bind, call. by intros ->. Qed.

Ltac open_op c :=
  destruct c; simpl in *;
  unfold lift, UploadByFilename, UploadByBuffer,
    UploadSlaveByFilename, UploadSlaveByBuffer, UploadAppenderByFilename,
    UploadAppenderByBuffer, DeleteFile, DownloadToFile, DownloadToBuffer;
  rewrite ?bind_observe;
  repeat match goal with
    | H : fdfsCheckFile _ _ = None |- _ => rewrite H
    | H : ∀ id, Some ?x = Some id → _ |- _ => rewrite (H x eq_refl)
    end.

(** When the tracker query of an operation fails, the operation returns
    [nil] and the tracker's error as it is; the query is the last call it
    makes (no pool request, no pool construction, no storage call) and
    [storagePoolMap] is as before. *)
Theorem tracker_failure_is_returned
    (this : FastDFSClient ConnectionPool) (c : Call) (s : State)
    (g f : string) (err : error) (w : World) :
  local_check c s = None →
  (∀ id, identifier c = Some id → splitRemoteFileId id = ([g; f], None)) →
  ask_tracker (mkTrackerClient (pool this)) (query_kind c g f) (world s)
    = (inr err, w) →
  perform this c s
    = (failed c (Some err), mkState w (storagePoolMap s),
       (pre_events c
          ++ [EvTracker (mkTrackerClient (pool this)) (query_kind c g f)])%list).
Proof.
  unfold local_check, pre_events. intros Hchk Hid Htr.
  open_op c; by rewrite (bind_call _ _ _ _ _ _ Htr).
Qed.

(** When the tracker names a server, the operation asks the registry for
    the pool of that server's address, calls its storage executor with
    the client built from whatever pool came back, the same tracker
    client, the server and its own arguments, and returns the executor's
    result as it is. *)
Theorem executor_result_is_returned
    (this : FastDFSClient ConnectionPool) (c : Call) (s : State)
    (g f : string) (serv : StorageServer) (w : World) :
  local_check c s = None →
  (∀ id, identifier c = Some id → splitRemoteFileId id = ([g; f], None)) →
  ask_tracker (mkTrackerClient (pool this)) (query_kind c g f) (world s)
    = (inl serv, w) →
  perform this c s =
    let tc := mkTrackerClient (pool this) in
    let '(p, s1, t1) :=
      getStoragePool this (ipAddr serv) (mkState w (storagePoolMap s)) in
    let store := mkStorageClient p.1 in
    let '(r, w2) := execute c store tc serv f (world s1) in
    (r, mkState w2 (storagePoolMap s1),
     (pre_events c ++ EvTracker tc (query_kind c g f)
        :: t1 ++ [EvStorage store serv (storage_call_of c f)])%list).
Proof.
  unfold local_check, pre_events. intros Hchk Hid Htr.
  open_op c; rewrite (bind_call _ _ _ _ _ _ Htr); unfold bind, call, tag;
    destruct (getStoragePool _ _ _) as [[p s1] t1]; simpl;
    match goal with
    | |- context [mkState (?x).2 _] => destruct x as [r w2]
    end; reflexivity.
Qed.

(** ** What an operation does to the registry, and how often it calls *)

Ltac op_paths c :=
  unfold result, final, events, local_check;
  destruct c; simpl;
  unfold lift, UploadByFilename, UploadByBuffer,
    UploadSlaveByFilename, UploadSlaveByBuffer, UploadAppenderByFilename,
    UploadAppenderByBuffer, DeleteFile, DownloadToFile, DownloadToBuffer;
  try match goal with
    | |- context [splitRemoteFileId ?id] =>
        let g := fresh "g" in
        let f := fresh "f" in
        destruct (split_two_parts id) as [-> | (g & f & -> & _)]
    end;
  unfold getStoragePool, registry_serve, send_request, lookupPool, storePool,
    bind, observe, call, ret;
  repeat case_match; simplify_eq/=.

(** An operation never removes or replaces a pool: the only entry of
    [storagePoolMap] it can change is the one of the server it calls, and
    only from none to a pool. *)
Theorem operation_only_adds_the_server_pool
    (this : FastDFSClient ConnectionPool) (c : Call) (s : State)
    (a : string) :
  storagePoolMap (final (perform this c) s) !! a = storagePoolMap s !! a ∨
  (storagePoolMap s !! a = None ∧
   a ∈ map (λ x, ipAddr x.1.2)
         (storage_calls (events (perform this c) s))).
Proof.
  op_paths c; try (by left);
    match goal with
    | |- context [<[?k := _]> _ !! a] =>
        destruct (decide (k = a)) as [<-|Hne];
        [right; split; [done|by apply list_elem_of_singleton]
        |left; by rewrite lookup_insert_ne]
    end.
Qed.

(** Nothing is tried twice, and no phase runs without the one before
    it: an operation makes at most one tracker query, a pool request
    only after a tracker query, exactly one storage call per pool
    request, and a pool construction only for a pool request. *)
Theorem operation_does_not_retry
    (this : FastDFSClient ConnectionPool) (c : Call) (s : State) :
  let t := events (perform this c) s in
  (length (pool_constructions t) ≤ length (pool_requests t))%nat ∧
  length (pool_requests t) = length (storage_calls t) ∧
  (length (storage_calls t) ≤ length (tracker_queries t))%nat ∧
  (length (tracker_queries t) ≤ 1)%nat.
Proof. op_paths c; simpl; lia. Qed.

(** ** [getStoragePool] alone *)

(** [getStoragePool] either leaves [storagePoolMap] as it is, or adds
    the pool it returns under the address it was called for, which had
    none. *)
Theorem getStoragePool_changes_one_entry
    (this : FastDFSClient ConnectionPool) (ip : string) (s : State) :
  storagePoolMap (final (getStoragePool this ip) s) = storagePoolMap s ∨
  ∃ sp, storagePoolMap s !! ip = None ∧
        result (getStoragePool this ip) s = (Some sp, None) ∧
        storagePoolMap (final (getStoragePool this ip) s)
          = <[ip := sp]> (storagePoolMap s).
Proof.
  unfold result, final. rewrite getStoragePool_eq.
  destruct (storagePoolMap s !! ip) as [p|] eqn:E.
  - rewrite (registry_serve_hit (request_for ip) s p E). by left.
  - rewrite (registry_serve_miss (request_for ip) s E). simpl.
    destruct (NewConnectionPool _ _ _ _) as [[sp|err] w]; simpl.
    + right. by exists sp.
    + by left.
Qed.

(** With no other caller in flight: once [getStoragePool] has returned
    a pool for an address, the pool is recorded under that address, and
    the next [getStoragePool] for it, from any client and again with no
    other caller in flight, returns the same pool with no error,
    constructs nothing and changes nothing.  (With other callers in
    flight the reply received may be another caller's.) *)
Theorem getStoragePool_twice
    (this this' : FastDFSClient ConnectionPool) (ip : string) (s : State)
    (p : ConnectionPool) (e : option error) :
  result (getStoragePool this ip) s = (Some p, e) →
  let s' := final (getStoragePool this ip) s in
  e = None ∧
  storagePoolMap s' !! ip = Some p ∧
  getStoragePool this' ip s'
    = ((Some p, None), s', [EvPoolRequest (request_for ip)]).
Proof.
  intros Hres s'. subst s'. revert Hres.
  unfold result, final. rewrite !getStoragePool_eq.
  destruct (storagePoolMap s !! ip) as [q|] eqn:E.
  - rewrite (registry_serve_hit (request_for ip) s q E). simpl.
    intros [= -> <-].
    by rewrite (registry_serve_hit (request_for ip) s p E).
  - rewrite (registry_serve_miss (request_for ip) s E). simpl.
    destruct (NewConnectionPool _ _ _ _) as [[sp|err] w]; simpl; [|done].
    intros [= -> <-].
    assert (Hp : storagePoolMap
                   (mkState w (<[ip := p]> (storagePoolMap s))) !! ip = Some p)
      by apply lookup_insert_eq.
    by rewrite (registry_serve_hit (request_for ip) _ p Hp).
Qed.

(** ** From one operation to the next *)

(** With no other caller in flight: when an operation has called its
    executor with a pool, that pool is recorded for the server's address
    in the state the operation leaves, and the next [getStoragePool] for
    that server, from any client and again with no other caller in
    flight, returns the same pool, constructs nothing and changes
    nothing. *)
Theorem operation_pool_is_reused
    (this this' : FastDFSClient ConnectionPool) (c : Call) (s : State)
    (store : StorageClient ConnectionPool) (serv : StorageServer)
    (sc : StorageCall) (p : ConnectionPool) :
  (store, serv, sc) ∈ storage_calls (events (perform this c) s) →
  sc_pool store = Some p →
  let s' := final (perform this c) s in
  storagePoolMap s' !! ipAddr serv = Some p ∧
  getStoragePool this' (ipAddr serv) s'
    = ((Some p, None), s', [EvPoolRequest (request_for (ipAddr serv))]).
Proof.
  intros Hcall Hp s'. subst s'.
  apply executor_gets_the_pool_or_nil in Hcall. rewrite Hp in Hcall.
  split; [done|]. rewrite getStoragePool_eq.
  by rewrite (registry_serve_hit (request_for (ipAddr serv)) _ p).
Qed.

(** ** C8: the bounds of the pools *)

Lemma perform_served this c s g f serv w :
  local_check c s = None →
  (∀ id, identifier c = Some id → splitRemoteFileId id = ([g; f], None)) →
  ask_tracker (mkTrackerClient (pool this)) (query_kind c g f) (world s)
    = (inl serv, w) →
  perform this c s =
    let tc := mkTrackerClient (pool this) in
    let '(p, s1, t1) :=
      getStoragePool this (ipAddr serv) (mkState w (storagePoolMap s)) in
    let store := mkStorageClient p.1 in
    let '(r, w2) := execute c store tc serv f (world s1) in
    (r, mkState w2 (storagePoolMap s1),
     (pre_events c ++ EvTracker tc (query_kind c g f)
        :: t1 ++ [EvStorage store serv (storage_call_of c f)])%list).
Proof.
  unfold local_check, pre_events. intros Hchk Hid Htr.
  open_op c; rewrite (bind_call _ _ _ _ _ _ Htr); unfold bind, call, tag;
    destruct (getStoragePool _ _ _) as [[p s1] t1]; simpl;
    match goal with
    | |- context [mkState (?x).2 _] => destruct x as [r w2]
    end; reflexivity.
Qed.

(** C8. [New] is one call of [NewConnectionPool] with [cfg.Endpoints],
    10 and 150, and the client it returns holds the pool that call
    built.  Every operation, for every client, once the tracker has
    named a server, asks the registry exactly once, for
    [{addr: the server's ipAddr, minConns: 10, maxConns: 150}]; when the
    map has no pool for that address the one construction made is
    [NewConnectionPool ([ipAddr], 10, 150)], and the pool that call
    returns is the pool recorded and handed to the executor; when the
    map has one, nothing is constructed and that pool is handed over.
    On every path of every operation the pool requests are these, one
    per storage call, every construction has bounds 10 and 150, and a
    caller of [getStoragePool] puts that same request on
    [storagePoolChan]. *)
Theorem pool_bounds_are_fixed :
  (∀ cfg s,
     New cfg s =
       match NewConnectionPool (Endpoints cfg) 10 150 (world s) with
       | (inl p, w) =>
           ((Some (mkFastDFSClient (Some p) 0), None),
            mkState w (storagePoolMap s),
            [EvNewConnectionPool (Endpoints cfg) 10 150])
       | (inr err, w) =>
           ((None, Some err), mkState w (storagePoolMap s),
            [EvNewConnectionPool (Endpoints cfg) 10 150])
       end) ∧
  (∀ this c s g f serv w,
     local_check c s = None →
     (∀ id, identifier c = Some id → splitRemoteFileId id = ([g; f], None)) →
     ask_tracker (mkTrackerClient (pool this)) (query_kind c g f) (world s)
       = (inl serv, w) →
     let t := events (perform this c) s in
     pool_requests t = [mkStoragePool (ipAddr serv) 10 150] ∧
     match storagePoolMap s !! ipAddr serv with
     | Some p =>
         pool_constructions t = [] ∧
         map (λ x, sc_pool x.1.1) (storage_calls t) = [Some p] ∧
         storagePoolMap (final (perform this c) s) = storagePoolMap s
     | None =>
         pool_constructions t = [([ipAddr serv], 10, 150)] ∧
         match (NewConnectionPool [ipAddr serv] 10 150 w).1 with
         | inl sp =>
             map (λ x, sc_pool x.1.1) (storage_calls t) = [Some sp] ∧
             storagePoolMap (final (perform this c) s)
               = <[ipAddr serv := sp]> (storagePoolMap s)
         | inr _ =>
             map (λ x, sc_pool x.1.1) (storage_calls t) = [None] ∧
             storagePoolMap (final (perform this c) s) = storagePoolMap s
         end
     end) ∧
  (∀ this c s,
     pool_requests (events (perform this c) s)
       = map (λ x, mkStoragePool (ipAddr x.1.2) 10 150)
           (storage_calls (events (perform this c) s)) ∧
     Forall (λ x, x.1.2 = 10 ∧ x.2 = 150)
       (pool_constructions (events (perform this c) s))) ∧
  (∀ m i ip m',
     callers m !! i = Some (AtRequest ip) →
     step (CallerMoves i) m = Some m' →
     queued (storagePoolChan m')
       = (queued (storagePoolChan m) ++ [mkStoragePool ip 10 150])%list).
Proof.
  split_and!.
  - intros cfg s. unfold New, bind, call, ret.
    by destruct (NewConnectionPool _ _ _ _) as [[p|e] w].
  - intros this c s g f serv w Hchk Hid Htr t. subst t.
    unfold events, final. rewrite (perform_served _ _ _ _ _ _ _ Hchk Hid Htr).
    rewrite getStoragePool_eq.
    destruct (storagePoolMap s !! ipAddr serv) as [p|] eqn:E.
    + rewrite (registry_serve_hit (request_for (ipAddr serv))
                 (mkState w (storagePoolMap s)) p E).
      simpl. destruct (execute _ _ _ _ _ _) as [r w2]. simpl.
      unfold pre_events. by destruct (local_file c).
    + rewrite (registry_serve_miss (request_for (ipAddr serv))
                 (mkState w (storagePoolMap s)) E).
      simpl.
      destruct (NewConnectionPool [ipAddr serv] 10 150 w) as [[sp|err] w'];
        simpl; destruct (execute _ _ _ _ _ _) as [r w2]; simpl;
        unfold pre_events; by destruct (local_file c).
  - intros this c s. split.
    + apply pool_requests_eq.
    + apply pool_constructions_bounds.
  - intros m i ip m' Hi Hstep. apply step_Step in Hstep.
    inversion Hstep as [| | |m0 j ip' ch Hj Hc|m0 j ip' v ch Hj Hc
                       |m0 j ch Hj Hc]; subst; simplify_eq/=.
    by apply chan_send_queued in Hc.
Qed.

End Operations.


Section Goroutines.
Context `{Pkg : Package}.

(** ** The channels *)

Lemma chan_recv_made {A} n (q : list A) a ch :
  chan_recv (Some (mkChan n q)) = Some (a, ch) →
  ∃ q', q = a :: q' ∧ ch = Some (mkChan n q').
Proof. destruct q as [|b q']; simpl; [done|]. intros [= <- <-]. eauto. Qed.

Lemma chan_send_made {A} n (q : list A) a ch :
  chan_send (Some (mkChan n q)) a = Some ch →
  (length q < n)%nat ∧ ch = Some (mkChan n (q ++ [a])%list).
Proof. simpl. case_decide; [|done]. by intros [= <-]. Qed.

Lemma step_channels_made a m m' :
  channels_made m → step a m = Some m' → channels_made m'.
Proof.
  intros ((q1 & Hq1 & Hl1) & (q2 & Hq2 & Hl2) & Hq) H%step_Step.
  destruct H as [m spd ch Hr Hc|m b ch Hr Hc|m v ch Hr Hc|m j a' ch Hj Hc
                |m j a' v ch Hj Hc|m j ch Hj Hc];
    unfold channels_made; simpl.
  - rewrite Hq1 in Hc. apply chan_recv_made in Hc as (q' & -> & ->).
    split_and!; [|by eauto|done]. exists q'. simpl in Hl1. split; [done|lia].
  - by rewrite Hq in Hc.
  - rewrite Hq2 in Hc. apply chan_send_made in Hc as [Hlt ->].
    split_and!; [by eauto| |done]. eexists. split; [done|].
    rewrite length_app. simpl. lia.
  - rewrite Hq1 in Hc. apply chan_send_made in Hc as [Hlt ->].
    split_and!; [|by eauto|done]. eexists. split; [done|].
    rewrite length_app. simpl. lia.
  - rewrite Hq2 in Hc. apply chan_recv_made in Hc as (q' & -> & ->).
    split_and!; [by eauto| |done]. exists q'. simpl in Hl2. split; [done|lia].
  - by rewrite Hq in Hc.
Qed.

Lemma run_channels_made w cs sched m' :
  run sched (boot w cs) = Some m' → channels_made m'.
Proof.
  apply (run_invariant channels_made).
  - intros a m1 m2. apply step_channels_made.
  - unfold channels_made, boot, make. simpl.
    split_and!; [exists []; split; [done|simpl; lia]
                |exists []; split; [done|simpl; lia]|done].
Qed.

(** Whatever the callers and the scheduler do, [storagePoolChan] and
    [fetchStoragePoolChan] stay the channels of capacity 1 they were
    made, never holding more than one value, and [quit] stays [nil]. *)
Theorem channels_stay_as_made (w : World) (cs : list Caller)
    (sched : list Action) (m' : Machine) :
  run sched (boot w cs) = Some m' → channels_made m'.
Proof. apply run_channels_made. Qed.

(** ** No request is lost, and [getStoragePool] cannot get stuck *)

Lemma count_insert (f : Caller → bool) cs i x y :
  cs !! i = Some x →
  (length (filter (λ c, f c = true) (<[i := y]> cs)) + Nat.b2n (f x)
   = length (filter (λ c, f c = true) cs) + Nat.b2n (f y))%nat.
Proof.
  revert i. induction cs as [|c cs IH]; intros i; [done|].
  destruct i as [|i]; simpl.
  - intros [= ->]. rewrite !filter_cons.
    repeat case_decide; destruct (f x), (f y); simpl in *; try done; lia.
  - intros Hi. specialize (IH i Hi). rewrite !filter_cons.
    case_decide; simpl; lia.
Qed.

Lemma step_conserves a m m' :
  waiting m = in_flight m → step a m = Some m' → waiting m' = in_flight m'.
Proof.
  unfold waiting, in_flight. intros Hinv H%step_Step.
  destruct H as [m spd ch Hr Hc|m b ch Hr Hc|m v ch Hr Hc|m j a' ch Hj Hc
                |m j a' v ch Hj Hc|m j ch Hj Hc]; simpl.
  - apply chan_recv_queued in Hc. rewrite Hc, Hr in Hinv. simpl in Hinv. lia.
  - by rewrite Hr in Hinv.
  - apply chan_send_queued in Hc. rewrite Hc, length_app. simpl.
    rewrite Hr in Hinv. lia.
  - apply chan_send_queued in Hc. rewrite Hc, length_app. simpl.
    pose proof (count_insert is_waiting _ _ _ (AtResult a') Hj) as Hn.
    simpl in Hn. lia.
  - apply chan_recv_queued in Hc. rewrite Hc in Hinv. simpl in Hinv.
    pose proof (count_insert is_waiting _ _ _
                  (Returned a' (type_switch v)) Hj) as Hn.
    simpl in Hn. lia.
  - pose proof (count_insert is_waiting _ _ _ CloseReturned Hj) as Hn.
    simpl in Hn. lia.
Qed.

Lemma run_conserves w cs sched m' :
  Forall (λ c, is_fresh c = true) cs →
  run sched (boot w cs) = Some m' →
  waiting m' = in_flight m'.
Proof.
  intros Hcs. apply (run_invariant (λ m, waiting m = in_flight m)).
  - intros a m1 m2. apply step_conserves.
  - unfold waiting, in_flight, boot. simpl.
    induction Hcs as [|c cs' Hc _ IH]; [done|].
    rewrite filter_cons. case_decide; [by destruct c|done].
Qed.

Lemma some_caller_waits m :
  (0 < waiting m)%nat → ∃ i ip, callers m !! i = Some (AtResult ip).
Proof.
  unfold waiting. intros Hpos.
  destruct (filter (λ c, is_waiting c = true) (callers m)) as [|c l] eqn:E;
    [simpl in Hpos; lia|].
  assert (Hc : c ∈ filter (λ c, is_waiting c = true) (callers m))
    by (rewrite E; apply list_elem_of_here).
  apply list_elem_of_filter in Hc as [Hw Hc].
  apply list_elem_of_lookup in Hc as [i Hi].
  destruct c; try done. eauto.
Qed.

(** From the start of the package, with callers about to call
    [getStoragePool] (or [Close]) and whatever the scheduler does: the
    callers waiting for a reply are as many as the requests queued or
    being served plus the replies queued, so no request is dropped and
    no reply is made up; and as long as some caller is inside
    [getStoragePool] some goroutine can move. *)
Theorem getStoragePool_never_deadlocks (w : World) (cs : list Caller)
    (sched : list Action) (m' : Machine) :
  Forall (λ c, is_fresh c = true) cs →
  run sched (boot w cs) = Some m' →
  waiting m' = in_flight m' ∧
  (Forall (λ c, is_pending c = false) (callers m') ∨
   ∃ a m'', step a m' = Some m'').
Proof.
  intros Hcs Hrun.
  pose proof (run_channels_made _ _ _ _ Hrun)
    as ((q1 & Hq1 & Hl1) & (q2 & Hq2 & Hl2) & Hq).
  pose proof (run_conserves _ _ _ _ Hcs Hrun) as Hcons.
  split; [done|].
  assert (Hrecv : (0 < waiting m')%nat → q2 ≠ [] →
                  ∃ a m'', step a m' = Some m'').
  { intros (i & ip & Hi)%some_caller_waits Hne.
    destruct q2 as [|v q2']; [done|].
    exists (CallerMoves i). eexists. apply step_Step.
    eapply Step_caller_result; [exact Hi|]. by rewrite Hq2. }
  unfold in_flight in Hcons. rewrite Hq1, Hq2 in Hcons. simpl in Hcons.
  destruct (registry m') as [|v] eqn:Hr.
  - destruct q1 as [|spd q1'].
    + destruct q2 as [|v q2'].
      * destruct (decide (Forall (λ c, is_pending c = false) (callers m')))
          as [Hall|Hnot]; [by left|right].
        apply not_Forall_Exists in Hnot; [|apply _].
        apply Exists_exists in Hnot as (c & Hc & Hp).
        apply list_elem_of_lookup in Hc as [i Hi].
        destruct c as [ip|ip| | |]; simpl in Hp; try done.
        -- exists (CallerMoves i). eexists. apply step_Step.
           eapply Step_caller_request; [exact Hi|by rewrite Hq1].
        -- exfalso. simpl in Hcons.
           assert (Hin : AtResult ip
                         ∈ filter (λ c, is_waiting c = true) (callers m')).
           { apply list_elem_of_filter. split; [done|].
             apply list_elem_of_lookup. eauto. }
           unfold waiting in Hcons.
           destruct (filter _ (callers m')); [by apply elem_of_nil in Hin|].
           simpl in Hcons. lia.
      * right. apply Hrecv; [simpl in Hcons; lia|done].
    + right. exists RegistryTakesRequest. eexists. apply step_Step.
      eapply Step_request; [exact Hr|by rewrite Hq1].
  - destruct q2 as [|v' q2'].
    + right. exists RegistryReplies. eexists. apply step_Step.
      eapply Step_reply; [exact Hr|]. rewrite Hq2. reflexivity.
    + right. apply Hrecv; [simpl in Hcons; lia|done].
Qed.

(** ** Every schedule ends *)

Lemma step_uses_one_move a m m' :
  quit m = None → step a m = Some m' →
  quit m' = None ∧ (remaining m' + 1 = remaining m)%nat.
Proof.
  unfold remaining. intros Hq H%step_Step.
  destruct H as [m spd ch Hr Hc|m b ch Hr Hc|m v ch Hr Hc|m j a' ch Hj Hc
                |m j a' v ch Hj Hc|m j ch Hj Hc]; simpl.
  - apply chan_recv_queued in Hc. rewrite Hc, Hr. simpl. split; [done|lia].
  - by rewrite Hq in Hc.
  - apply chan_send_queued in Hc. rewrite Hc, Hr, length_app. simpl.
    split; [done|lia].
  - apply chan_send_queued in Hc. rewrite Hc, length_app. simpl.
    pose proof (count_insert is_asking _ _ _ (AtResult a') Hj) as Hn.
    simpl in Hn. split; [done|lia].
  - apply chan_recv_queued in Hc. rewrite Hc. simpl.
    pose proof (count_insert is_asking _ _ _
                  (Returned a' (type_switch v)) Hj) as Hn.
    simpl in Hn. split; [done|lia].
  - by rewrite Hq in Hc.
Qed.

Lemma run_uses_moves sched m m' :
  quit m = None → run sched m = Some m' →
  (length sched + remaining m' = remaining m)%nat.
Proof.
  revert m. induction sched as [|a sched IH]; simpl; intros m Hq.
  - by intros [= <-].
  - destruct (step a m) as [m1|] eqn:E; [|done]. intros Hrun.
    destruct (step_uses_one_move _ _ _ Hq E) as [Hq1 Hm].
    specialize (IH m1 Hq1 Hrun). lia.
Qed.

(** From the start of the package every move is one of the four moves
    of some call of [getStoragePool] (send the request, take it, reply,
    receive): a schedule that runs has at most four moves per call, so
    no scheduler can keep the goroutines busy forever, and after four
    moves per call every call has returned. *)
Theorem getStoragePool_calls_take_four_moves (w : World) (cs : list Caller)
    (sched : list Action) (m' : Machine) :
  Forall (λ c, is_fresh c = true) cs →
  run sched (boot w cs) = Some m' →
  let calls := length (filter (λ c, is_asking c = true) cs) in
  (length sched + remaining m' = 4 * calls)%nat ∧
  (length sched = 4 * calls →
   Forall (λ c, is_pending c = false) (callers m'))%nat.
Proof.
  intros Hcs Hrun calls.
  pose proof (run_uses_moves sched (boot w cs) m' eq_refl Hrun) as Hmoves.
  assert (Hboot : remaining (boot w cs) = (4 * calls)%nat)
    by (unfold remaining, boot; simpl; lia).
  split; [lia|]. intros Hlen.
  assert (Hzero : remaining m' = 0%nat) by lia.
  pose proof (run_conserves _ _ _ _ Hcs Hrun) as Hcons.
  unfold remaining in Hzero. unfold waiting, in_flight in Hcons.
  apply Forall_forall. intros c Hc.
  destruct c as [ip|ip| | |]; try done; exfalso.
  - assert (Hin : AtRequest ip
                  ∈ filter (λ c, is_asking c = true) (callers m'))
      by (by apply list_elem_of_filter).
    destruct (filter (λ c, is_asking c = true) (callers m'));
      [by apply elem_of_nil in Hin|simpl in Hzero; lia].
  - assert (Hin : AtResult ip
                  ∈ filter (λ c, is_waiting c = true) (callers m'))
      by (by apply list_elem_of_filter).
    destruct (filter (λ c, is_waiting c = true) (callers m'));
      [by apply elem_of_nil in Hin|].
    simpl in Hcons. destruct (registry m'); lia.
Qed.

(** ** Where the pools come from *)

Lemma asked_insert (cs : list Caller) (i : nat) x y a :
  cs !! i = Some x → asks_for y = asks_for x →
  (∃ c, c ∈ cs ∧ asks_for c = Some a) →
  ∃ c, c ∈ <[i := y]> cs ∧ asks_for c = Some a.
Proof.
  intros Hi Hy (c & [k Hk]%list_elem_of_lookup & Hc).
  destruct (decide (k = i)) as [->|Hne].
  - exists y. split; [|congruence].
    apply list_elem_of_lookup. exists i. apply list_lookup_insert_eq.
    by eapply lookup_lt_Some.
  - exists c. split; [|done].
    apply list_elem_of_lookup. exists k. by rewrite list_lookup_insert_ne.
Qed.

Lemma step_sound a m m' : sound m → step a m = Some m' → sound m'.
Proof.
  intros (J1 & J2 & J3 & J4) H%step_Step.
  destruct H as [m spd ch Hr Hc|m b ch Hr Hc|m v ch Hr Hc|m j a' ch Hj Hc
                |m j a' v ch Hj Hc|m j ch Hj Hc];
    unfold sound, replies, asked in *; simpl in *.
  - apply chan_recv_queued in Hc. rewrite Hc in J2. rewrite Hr in J3.
    apply Forall_cons in J2 as [Hspd J2]. simpl in J3.
    unfold result, final.
    destruct (storagePoolMap (shared m) !! addr spd) as [p|] eqn:E.
    + rewrite (registry_serve_hit _ _ _ E). simpl.
      split_and!; [done|done| |done].
      apply Forall_cons. split; [|done]. intros q [= <-]. eauto.
    + rewrite (registry_serve_miss _ _ E). simpl.
      destruct (NewConnectionPool _ _ _ _) as [[sp|err] w]; simpl.
      * assert (Hgrow : ∀ q, (∃ a, storagePoolMap (shared m) !! a = Some q) →
                  ∃ a, <[addr spd := sp]> (storagePoolMap (shared m)) !! a
                       = Some q).
        { intros q (a0 & Ha0). exists a0.
          rewrite lookup_insert_ne; [done|]. congruence. }
        split_and!.
        -- intros a0 q. destruct (decide (addr spd = a0)) as [<-|Hne];
             [done|]. rewrite lookup_insert_ne by done. apply J1.
        -- done.
        -- apply Forall_cons. split.
           ++ intros q [= <-]. exists (addr spd). apply lookup_insert_eq.
           ++ eapply Forall_impl; [exact J3|]. simpl. intros v Hv q Hq.
              apply Hgrow. by apply Hv.
        -- eapply Forall_impl; [exact J4|]. simpl. intros c Hc' ip q e Hq.
           apply Hgrow. by eapply Hc'.
      * split_and!; [done|done| |done].
        apply Forall_cons. split; [|done]. by intros q.
  - rewrite Hr in J3. done.
  - rewrite Hr in J3. simpl in J3. apply Forall_cons in J3 as [Hv J3].
    apply chan_send_queued in Hc. rewrite Hc.
    split_and!; [done|done| |done].
    apply Forall_app. split; [done|]. by apply Forall_singleton.
  - apply chan_send_queued in Hc. rewrite Hc.
    assert (Hkeep : ∀ a, (∃ c, c ∈ callers m ∧ asks_for c = Some a) →
              ∃ c, c ∈ <[j := AtResult a']> (callers m) ∧ asks_for c = Some a).
    { intros a. by apply (asked_insert _ _ (AtRequest a')). }
    split_and!.
    + intros a q Hq. apply Hkeep. by eapply J1.
    + apply Forall_app. split.
      * eapply Forall_impl; [exact J2|]. simpl. intros spd. apply Hkeep.
      * apply Forall_singleton. simpl. apply Hkeep.
        exists (AtRequest a'). split; [|done].
        apply list_elem_of_lookup. eauto.
    + done.
    + apply Forall_insert; [done|]. done.
  - apply chan_recv_queued in Hc. rewrite Hc in J3.
    apply Forall_app in J3 as [J3a J3]. apply Forall_cons in J3 as [Hv J3].
    assert (Hkeep : ∀ a, (∃ c, c ∈ callers m ∧ asks_for c = Some a) →
              ∃ c, c ∈ <[j := Returned a' (type_switch v)]> (callers m)
                   ∧ asks_for c = Some a).
    { intros a. by apply (asked_insert _ _ (AtResult a')). }
    split_and!.
    + intros a q Hq. apply Hkeep. by eapply J1.
    + eapply Forall_impl; [exact J2|]. simpl. intros spd. apply Hkeep.
    + apply Forall_app. by split.
    + apply Forall_insert; [done|].
      intros ip q e [= _ Hts]. apply Hv. by eapply type_switch_pool.
  - assert (Hkeep : ∀ a, (∃ c, c ∈ callers m ∧ asks_for c = Some a) →
              ∃ c, c ∈ <[j := CloseReturned]> (callers m)
                   ∧ asks_for c = Some a).
    { intros a. by apply (asked_insert _ _ AtQuit). }
    split_and!.
    + intros a q Hq. apply Hkeep. by eapply J1.
    + eapply Forall_impl; [exact J2|]. simpl. intros spd. apply Hkeep.
    + done.
    + apply Forall_insert; [done|]. done.
Qed.

(** From the start of the package, whatever the scheduler does: the map
    holds pools only for addresses some caller asked for, and a pool a
    caller got back from [getStoragePool], be it the pool of its own
    address or not, is a pool the map holds for such an address.  The
    registry hands out no pool it has not recorded. *)
Theorem returned_pool_is_recorded (w : World) (cs : list Caller)
    (sched : list Action) (m' : Machine) :
  Forall (λ c, is_fresh c = true) cs →
  run sched (boot w cs) = Some m' →
  (∀ a q, storagePoolMap (shared m') !! a = Some q → asked m' a) ∧
  (∀ i ip q e, callers m' !! i = Some (Returned ip (Some q, e)) →
     ∃ a, storagePoolMap (shared m') !! a = Some q ∧ asked m' a).
Proof.
  intros Hcs Hrun.
  assert (Hs : sound m').
  { revert Hrun. apply (run_invariant sound).
    - intros a m1 m2. apply step_sound.
    - unfold sound, replies, boot. simpl. split_and!; try done.
      eapply Forall_impl; [exact Hcs|]. simpl. by intros c Hc ip q e ->. }
  destruct Hs as (J1 & _ & _ & J4). split; [done|].
  intros i ip q e Hi. eapply Forall_lookup_1 in J4; [|exact Hi].
  destruct (J4 ip q e eq_refl) as [a Ha]. exists a. split; [done|].
  by eapply J1.
Qed.

(** ** One caller *)

Ltac next_move sched Hrun Hret a :=
  destruct sched as [|a sched];
  [injection Hrun as <-; simpl in Hret; try done
  |simpl in Hrun; destruct a as [| | |[|?]]; simpl in Hrun; try done].

(** With one caller, empty channels and the goroutine at its [select],
    the scheduler has no choice: the only schedule that lets the call
    return is send, take, reply, receive, and the call returns what the
    sequential [getStoragePool] computes, leaving the state and the
    record of calls it leaves. *)
Theorem lone_caller_gets_the_sequential_result
    (this : FastDFSClient ConnectionPool) (sh : State) (h : list Event)
    (ip : string) (sched : list Action) (m' : Machine)
    (r : option ConnectionPool * option error) :
  run sched (mkMachine sh (make 1) (make 1) None AtSelect [AtRequest ip] h)
    = Some m' →
  callers m' = [Returned ip r] →
  sched = [CallerMoves 0; RegistryTakesRequest; RegistryReplies;
           CallerMoves 0] ∧
  r = result (getStoragePool this ip) sh ∧
  shared m' = final (getStoragePool this ip) sh ∧
  history m' = (h ++ events (getStoragePool this ip) sh)%list.
Proof.
  intros Hrun Hret. unfold result, final, events.
  rewrite getStoragePool_eq.
  destruct (registry_serve (request_for ip) sh) as [[v s'] t] eqn:E.
  next_move sched Hrun Hret a1.
  next_move sched Hrun Hret a2.
  rewrite E in Hrun. simpl in Hrun.
  next_move sched Hrun Hret a3.
  next_move sched Hrun Hret a4.
  next_move sched Hrun Hret a5.
  injection Hret as <-. simpl. by rewrite <- app_assoc.
Qed.

End Goroutines.

Section MoreRuns.
Import Demo.

Lemma tracker_failure_is_returned_witness :
  perform client a_deletion (start w0)
  = (ADelete (Some "no storage server in group"), start w0,
     [EvTracker (mkTrackerClient (Some tracker_pool))
        (QUpdate "group9" "M00/00/00/abc.jpg")]).
Proof.
  apply (tracker_failure_is_returned (Pkg := pkg) client a_deletion
           (start w0) "group9" "M00/00/00/abc.jpg"
           "no storage server in group" w0).
  - reflexivity.
  - intros id [= <-]. reflexivity.
  - reflexivity.
Defined.

Lemma executor_result_is_returned_witness :
  perform client a_download (start w0)
  = (ADownload (Some [], None),
     mkState (mkWorld ["/tmp/thumb.jpg"] [] 2) {[ ip80 := pool80 ]},
     [ EvTracker (mkTrackerClient (Some tracker_pool))
         (QFetch "group1" "M00/00/00/abc.jpg");
       EvPoolRequest (request_for ip80);
       EvNewConnectionPool [ip80] 10 150;
       EvStorage (mkStorageClient (Some pool80)) (mkServer ip80 "group1")
         (SDownloadToBuffer [] 10 5 "M00/00/00/abc.jpg") ]).
Proof.
  apply (executor_result_is_returned (Pkg := pkg) client a_download
           (start w0) "group1" "M00/00/00/abc.jpg" (mkServer ip80 "group1")
           w0).
  - reflexivity.
  - intros id [= <-]. reflexivity.
  - reflexivity.
Defined.

Lemma getStoragePool_twice_witness :
  (None : option error) = None ∧
  storagePoolMap (final (getStoragePool client ip80) (start w0)) !! ip80
    = Some pool80 ∧
  getStoragePool client ip80 (final (getStoragePool client ip80) (start w0))
    = ((Some pool80, None), final (getStoragePool client ip80) (start w0),
       [EvPoolRequest (request_for ip80)]).
Proof.
  apply (getStoragePool_twice (Pkg := pkg) client client ip80 (start w0)
           pool80 None).
  reflexivity.
Defined.

Lemma operation_pool_is_reused_witness :
  storagePoolMap (final (perform client a_download) (start w0)) !! ip80
    = Some pool80 ∧
  getStoragePool client ip80 (final (perform client a_download) (start w0))
    = ((Some pool80, None), final (perform client a_download) (start w0),
       [EvPoolRequest (request_for ip80)]).
Proof.
  apply (operation_pool_is_reused (Pkg := pkg) client client a_download
           (start w0) (mkStorageClient (Some pool80)) (mkServer ip80 "group1")
           (SDownloadToBuffer [] 10 5 "M00/00/00/abc.jpg") pool80).
  - vm_compute. apply list_elem_of_here.
  - reflexivity.
Defined.

Lemma channels_stay_as_made_witness : channels_made after_crossing.
Proof.
  apply (channels_stay_as_made (Pkg := pkg) w0 two_callers crossing
           after_crossing).
  reflexivity.
Defined.

Lemma getStoragePool_never_deadlocks_witness :
  waiting after_crossing = in_flight after_crossing ∧
  (Forall (λ c, is_pending c = false) (callers after_crossing) ∨
   ∃ a m'', step a after_crossing = Some m'').
Proof.
  apply (getStoragePool_never_deadlocks (Pkg := pkg) w0 two_callers crossing
           after_crossing).
  - repeat constructor.
  - reflexivity.
Defined.

Lemma getStoragePool_calls_take_four_moves_witness :
  (length crossing + remaining after_crossing = 4 * 2)%nat ∧
  (length crossing = (4 * 2)%nat →
   Forall (λ c, is_pending c = false) (callers after_crossing)).
Proof.
  apply (getStoragePool_calls_take_four_moves (Pkg := pkg) w0 two_callers
           crossing after_crossing).
  - repeat constructor.
  - reflexivity.
Defined.

Lemma returned_pool_is_recorded_witness :
  (∀ a q, storagePoolMap (shared after_crossing) !! a = Some q →
          asked after_crossing a) ∧
  (∀ i ip q e,
     callers after_crossing !! i = Some (Returned ip (Some q, e)) →
     ∃ a, storagePoolMap (shared after_crossing) !! a = Some q ∧
          asked after_crossing a).
Proof.
  apply (returned_pool_is_recorded (Pkg := pkg) w0 two_callers crossing
           after_crossing).
  - repeat constructor.
  - reflexivity.
Defined.

Lemma lone_caller_gets_the_sequential_result_witness :
  serve_first = [CallerMoves 0; RegistryTakesRequest; RegistryReplies;
                 CallerMoves 0] ∧
  (Some pool81, None) = result (getStoragePool client ip81) warm ∧
  shared after_serve_first = final (getStoragePool client ip81) warm ∧
  history after_serve_first
    = ([] ++ events (getStoragePool client ip81) warm)%list.
Proof.
  apply (lone_caller_gets_the_sequential_result (Pkg := pkg) client warm []
           ip81 serve_first after_serve_first (Some pool81, None));
    reflexivity.
Defined.

Lemma same_address_callers_agree_witness :
  (∀ i a q e, callers after_same !! i = Some (Returned a (Some q, e)) →
              storagePoolMap (shared after_same) !! ip80 = Some q) ∧
  (∀ i j a b q1 q2 e1 e2,
     callers after_same !! i = Some (Returned a (Some q1, e1)) →
     callers after_same !! j = Some (Returned b (Some q2, e2)) → q1 = q2).
Proof.
  apply (same_address_callers_agree (Pkg := pkg) w0 same_callers crossing
           after_same ip80).
  - repeat constructor.
  - reflexivity.
Defined.

(** ** C8 *)

Lemma pool_bounds_are_fixed_witness :
  let t := events (perform client a_download) (start w0) in
  pool_requests t = [mkStoragePool ip80 10 150] ∧
  pool_constructions t = [([ip80], 10, 150)] ∧
  map (λ x, sc_pool x.1.1) (storage_calls t) = [Some pool80] ∧
  storagePoolMap (final (perform client a_download) (start w0))
    = <[ip80 := pool80]> (storagePoolMap (start w0)).
Proof.
  apply (proj1 (proj2 (pool_bounds_are_fixed (Pkg := pkg))) client a_download
           (start w0) "group1" "M00/00/00/abc.jpg" (mkServer ip80 "group1")
           w0).
  - reflexivity.
  - intros id [= <-]. reflexivity.
  - reflexivity.
Defined.

End MoreRuns.
